(** * The event bus of go-tools (package [eventbus] of logger/logger.go)

    A shallow embedding of the topic registry ([Subscribe], [Unsubscribe],
    [HasCallback]) and of the two dispatchers ([Publish],
    [PublishWithReply]), with the slices of the registry kept in an explicit
    store of backing arrays so that the in-place edits of [removeHandler] and
    the snapshot taken by the dispatchers mean what they mean in Go. *)

From Stdlib Require Import ZArith.
From stdpp Require Import gmap strings list fin_maps.

Local Open Scope Z_scope.

(** ** Panics and the result of a call that may panic *)

(** The run-time panics the bus can raise, named after their cause. *)
Inductive panic : Type :=
  | NilDereference                 (* method call through a nil interface or pointer *)
  | ValueErrorType                 (* reflect: call of reflect.Value.Type on zero Value *)
  | ValueErrorPointer              (* reflect: call of reflect.Value.Pointer on a value without pointer *)
  | ValueErrorInterface            (* reflect: call of reflect.Value.Interface on zero Value *)
  | InOfNonFunc                    (* reflect: In of non-func type *)
  | IndexOutOfRange (i n : nat)    (* index out of range [i] with length n *)
  | SendOnClosedChannel            (* send on closed channel *)
  | UserPanic (msg : string).      (* a panic raised while the callable runs *)

Inductive result (A : Type) : Type :=
  | Ok (a : A)
  | Panic (p : panic).
Arguments Ok {A} a.
Arguments Panic {A} p.

#[global] Instance result_ret : MRet result := λ A a, Ok a.
#[global] Instance result_bind : MBind result := λ A B k r,
  match r with
  | Ok a => k a
  | Panic p => Panic p
  end.

(** ** Package reflect, as far as the bus uses it *)

Module reflect.

(** reflect.Kind *)
Inductive Kind : Type :=
  | Invalid | Bool | Int | Int8 | Int16 | Int32 | Int64
  | Uint | Uint8 | Uint16 | Uint32 | Uint64 | Uintptr
  | Float32 | Float64 | Complex64 | Complex128
  | Array | Chan | Func | Interface | Map | Ptr | Slice
  | String | Struct | UnsafePointer.

#[global] Instance Kind_eq_dec : EqDecision Kind.
Proof. solve_decision. Defined.

(** A type descriptor: its kind, its name (empty for an unnamed type) and,
    for a function type, the parameter types, the variadic flag and the
    result types.  Two types are identical when their descriptors are. *)
#[warnings="-register-all"]
Inductive rtype : Type :=
  MkType (kind : Kind) (name : string)
         (ins : list rtype) (variadic : bool) (outs : list rtype).

Definition kind_of (t : rtype) : Kind := let 'MkType k _ _ _ _ := t in k.
Definition ins_of (t : rtype) : list rtype := let 'MkType _ _ i _ _ := t in i.
Definition outs_of (t : rtype) : list rtype := let 'MkType _ _ _ _ o := t in o.
Definition variadic_of (t : rtype) : bool := let 'MkType _ _ _ v _ := t in v.

Fixpoint rtype_eq_dec (a b : rtype) : {a = b} + {a ≠ b}.
Proof.
  decide equality.
  - apply (@list_eq_dec _ rtype_eq_dec).
  - apply bool_eq_dec.
  - apply (@list_eq_dec _ rtype_eq_dec).
  - apply (decide_rel (=@{string})).
  - apply Kind_eq_dec.
Defined.

#[global] Instance rtype_eq : EqDecision rtype := rtype_eq_dec.

(** What a value of some type holds.  A function value is an entry point
    (the code pointer) together with the identity of its closure
    environment; entry point 0 is the nil function. *)
Inductive Data : Type :=
  | DBool (b : bool)
  | DInt (z : Z)
  | DString (s : string)
  | DFunc (entry : N) (closure : N)
  | DPtr (addr : N)
  | DMem (repr : N).

#[global] Instance Data_eq_dec : EqDecision Data.
Proof. solve_decision. Defined.

(** An [interface{}]: nil, or a dynamic type with its data. *)
Inductive iface : Type :=
  | INil
  | IVal (t : rtype) (d : Data).

(** A reflect.Value: the zero Value, or a typed datum. *)
Inductive Value : Type :=
  | VZero
  | VVal (t : rtype) (d : Data).

#[global] Instance iface_eq_dec : EqDecision iface.
Proof. solve_decision. Defined.
#[global] Instance Value_eq_dec : EqDecision Value.
Proof. solve_decision. Defined.

(** reflect.TypeOf: the nil Type for a nil interface. *)
Definition TypeOf (i : iface) : option rtype :=
  match i with
  | INil => None
  | IVal t _ => Some t
  end.

(** reflect.ValueOf: the zero Value for a nil interface. *)
Definition ValueOf (i : iface) : Value :=
  match i with
  | INil => VZero
  | IVal t d => VVal t d
  end.

(** Type.Kind, called through a [Type] interface that may be nil. *)
Definition Kind_ (t : option rtype) : result Kind :=
  match t with
  | None => Panic NilDereference
  | Some t => Ok (kind_of t)
  end.

(** Value.Type *)
Definition Type_ (v : Value) : result rtype :=
  match v with
  | VZero => Panic ValueErrorType
  | VVal t _ => Ok t
  end.

(** Value.Pointer *)
Definition Pointer (v : Value) : result N :=
  match v with
  | VZero => Panic ValueErrorPointer
  | VVal t d =>
      match kind_of t with
      | Func => Ok (match d with DFunc entry _ => entry | _ => 0%N end)
      | Chan | Map | Ptr | Slice | UnsafePointer =>
          Ok (match d with DPtr a => a | _ => 0%N end)
      | _ => Panic ValueErrorPointer
      end
  end.

(** Type.In: only a function type has parameters, and only the declared
    ones. *)
Definition In (t : rtype) (i : nat) : result rtype :=
  if decide (kind_of t = Func) then
    match ins_of t !! i with
    | Some p => Ok p
    | None => Panic (IndexOutOfRange i (length (ins_of t)))
    end
  else Panic InOfNonFunc.

(** The zero datum of a kind. *)
Definition zero_data (k : Kind) : Data :=
  match k with
  | Bool => DBool false
  | Int | Int8 | Int16 | Int32 | Int64
  | Uint | Uint8 | Uint16 | Uint32 | Uint64 | Uintptr => DInt 0
  | String => DString EmptyString
  | Func => DFunc 0 0
  | Chan | Map | Ptr | Slice | UnsafePointer => DPtr 0
  | _ => DMem 0
  end.

(** reflect.New(t).Elem(): the zero value of type [t]. *)
Definition Zero (t : rtype) : Value := VVal t (zero_data (kind_of t)).

End reflect.

Import reflect.

(** ** The Go values the bus stores *)

(** [eventHandler]: the callable, as a reflect.Value.  The embedded
    sync.Mutex is never locked by this package and carries no state here. *)
Record eventHandler : Type := { callBack : Value }.

#[global] Instance eventHandler_eq_dec : EqDecision eventHandler.
Proof. solve_decision. Defined.

(** A [*eventHandler]: [None] is the nil pointer.  The handlers are never
    written after their creation, so a pointer is identified with the
    structure it points to. *)
Abbreviation handler_ptr := (option eventHandler).

(** An address of a backing array. *)
Abbreviation loc := positive.

(** A slice header [[]*eventHandler]: the backing array ([None] for the nil
    slice), the offset of the first element in it, the length and the
    capacity. *)
Record slice : Type := Slice {
  array : option loc;
  off : nat;
  len : nat;
  cap : nat
}.

Definition nil_slice : slice := Slice None 0 0 0.

#[global] Instance slice_eq_dec : EqDecision slice.
Proof. solve_decision. Defined.

(** The backing arrays that are allocated. *)
Abbreviation store := (gmap loc (list handler_ptr)).

(** The errors the bus returns, one constructor per [fmt.Errorf] of the
    source, with the values formatted into the message. *)
Inductive error : Type :=
  | NotFunc (k : Kind)                       (* "%s is not of type reflect.Func" *)
  | TopicNotExist (topic : string)           (* "topic %s doesn't exist" *)
  | TopicNotRegistered (topic : string)      (* "topic(%s)没有注册": the topic is not registered *)
  | HandlerNumWrong (topic : string) (handlerNum : nat)
      (* "topic(%s)对应的handler个数错误[期望值: 1,实际值: %d]": expected 1 handler, found handlerNum *)
  | HandlerTimeout (topic : string).         (* "topic(%s)对应的handler执行超时": the handler timed out *)

(** The error kinds of the specification. *)
Inductive ErrorKind : Type :=
  NotInvocable | UnknownTopic | HandlerCountMismatch | Timeout.

Definition error_kind (e : error) : ErrorKind :=
  match e with
  | NotFunc _ => NotInvocable
  | TopicNotExist _ | TopicNotRegistered _ => UnknownTopic
  | HandlerNumWrong _ _ => HandlerCountMismatch
  | HandlerTimeout _ => Timeout
  end.

(** [EventBus]: the map of the handlers of each topic, and the backing
    arrays its slices (and the snapshots of the dispatchers) live in.  The
    RWMutex has no state here: every operation below is one critical
    section. *)
Record EventBus : Type := {
  handlers : gmap string slice;
  mem : store
}.

(** New returns new EventBus with empty handlers. *)
Definition New : EventBus := {| handlers := ∅; mem := ∅ |}.

(** ** Computations on the bus: state passing, and panics *)

Definition Go (A : Type) : Type := EventBus → EventBus * result A.

Definition ret {A} (a : A) : Go A := λ bus, (bus, Ok a).

Definition bind {A B} (m : Go A) (k : A → Go B) : Go B := λ bus,
  match m bus with
  | (bus', Ok a) => k a bus'
  | (bus', Panic p) => (bus', Panic p)
  end.

Notation "x <- m ;; k" := (bind m (λ x, k))
  (at level 100, m at next level, right associativity, only parsing).
Notation "m ;;; k" := (bind m (λ _, k))
  (at level 100, right associativity, only parsing).

Definition lift {A} (r : result A) : Go A := λ bus, (bus, r).

(** *** The growth policy of [append] *)

(** The run-time system chooses the capacity of the array [append]
    allocates when the old one is full; the language only promises that it
    is sufficiently large. *)
Class Runtime : Type := {
  growslice : nat → nat → nat;
  growslice_fits : ∀ oldcap needed, (needed ≤ growslice oldcap needed)%nat
}.

(** Amortised doubling, the policy of the Go run time for small slices. *)
#[global, refine] Instance doubling : Runtime :=
  {| growslice oldcap needed := (needed `max` (2 * oldcap))%nat |}.
Proof. intros. lia. Defined.

(** *** Slices *)

(** The content of the backing array of a slice. *)
Definition backing (m : store) (s : slice) : list handler_ptr :=
  match array s with
  | Some a => default [] (m !! a)
  | None => []
  end.

(** The elements of a slice, [s[0]] to [s[len(s)-1]]. *)
Definition elems (m : store) (s : slice) : list handler_ptr :=
  take (len s) (drop (off s) (backing m s)).

(** Overwrite the elements of [s] from index [i] on with [vs]. *)
Definition store_elems (m : store) (s : slice) (i : nat) (vs : list handler_ptr) : store :=
  match array s with
  | Some a => alter (list_inserts (off s + i) vs) a m
  | None => m
  end.

(** [s[i:]] *)
Definition slice_from (s : slice) (i : nat) : result slice :=
  if decide (i ≤ len s)%nat
  then Ok (Slice (array s) (off s + i) (len s - i) (cap s - i))
  else Panic (IndexOutOfRange i (len s)).

(** [s[:j]] *)
Definition slice_to (s : slice) (j : nat) : result slice :=
  if decide (j ≤ cap s)%nat
  then Ok (Slice (array s) (off s) j (cap s))
  else Panic (IndexOutOfRange j (cap s)).

(** [s[i] = v] *)
Definition index_set (s : slice) (i : nat) (v : handler_ptr) : Go unit := λ bus,
  if decide (i < len s)%nat
  then ({| handlers := handlers bus; mem := store_elems (mem bus) s i [v] |}, Ok ())
  else (bus, Panic (IndexOutOfRange i (len s))).

(** [make([]*eventHandler, n)]: a new array of [n] nil pointers. *)
Definition make (n : nat) : Go slice := λ bus,
  let a := fresh (dom (mem bus)) in
  ({| handlers := handlers bus; mem := <[a := replicate n None]> (mem bus) |},
   Ok (Slice (Some a) 0 n n)).

(** [copy(dst, src)]: the first [min(len(dst), len(src))] elements of [src]
    are read, then written to [dst], also when the two overlap. *)
Definition copy (dst src : slice) : Go nat := λ bus,
  let n := (len dst `min` len src)%nat in
  ({| handlers := handlers bus;
      mem := store_elems (mem bus) dst 0 (take n (elems (mem bus) src)) |}, Ok n).

(** [append(s, h)]: in place when the capacity allows it, into a new array
    otherwise. *)
Definition append `{Runtime} (s : slice) (h : handler_ptr) : Go slice := λ bus,
  if decide (len s < cap s)%nat then
    ({| handlers := handlers bus; mem := store_elems (mem bus) s (len s) [h] |},
     Ok (Slice (array s) (off s) (S (len s)) (cap s)))
  else
    let newcap := growslice (cap s) (S (len s)) in
    let a := fresh (dom (mem bus)) in
    ({| handlers := handlers bus;
        mem := <[a := elems (mem bus) s ++ h :: replicate (newcap - S (len s)) None]> (mem bus) |},
     Ok (Slice (Some a) 0 (S (len s)) newcap)).

(** The elements a [range] over [s] visits. *)
Definition range (s : slice) : Go (list handler_ptr) := λ bus,
  (bus, Ok (elems (mem bus) s)).

(** *** The map of the bus *)

(** [bus.handlers[topic]], in the comma-ok form: the nil slice and [false]
    for a missing key. *)
Definition map_get (topic : string) : Go (slice * bool) := λ bus,
  match handlers bus !! topic with
  | Some s => (bus, Ok (s, true))
  | None => (bus, Ok (nil_slice, false))
  end.

(** [bus.handlers[topic] = s] *)
Definition map_set (topic : string) (s : slice) : Go unit := λ bus,
  ({| handlers := <[topic := s]> (handlers bus); mem := mem bus |}, Ok ()).

(** ** Calling a subscribed function *)

(** What [callBack.Call(passedArguments)] does: it returns the list of the
    results after some time, panics after some time (reflect.Value.Call
    itself panics when the arguments do not fit the function), or never
    comes back. *)
Inductive Behaviour : Type :=
  | Returns (after : N) (resultList : list Value)
  | Panics (after : N) (p : panic)
  | Blocks.

(** The callables of the program that uses the bus. *)
Class Callables : Type := { Call : Value → list Value → Behaviour }.

(** A goroutine that calls a handler: the call it makes, if it gets as far
    as [Call], and how its body ends. *)
Record TaskRun : Type := {
  called : option (Value * list Value);
  outcome : Behaviour
}.

(** [*handler], for the field access [handler.callBack]. *)
Definition deref (handler : handler_ptr) : result eventHandler :=
  match handler with
  | Some h => Ok h
  | None => Panic NilDereference
  end.

(** The loop of setUpPublish, from argument [i] on. *)
Fixpoint setUpPublish_loop (funcType : rtype) (i : nat) (args : list iface)
  : result (list Value) :=
  match args with
  | [] => Ok []
  | v :: rest =>
      x ← match v with
          | INil => t ← In funcType i; Ok (Zero t)
          | _ => Ok (ValueOf v)
          end;
      xs ← setUpPublish_loop funcType (S i) rest;
      Ok (x :: xs)
  end.

Definition setUpPublish (callback : handler_ptr) (args : list iface)
  : result (list Value) :=
  h ← deref callback;
  funcType ← Type_ (callBack h);
  setUpPublish_loop funcType 0 args.

(** The body of doPublish, run by the goroutines of Publish. *)
Definition doPublish `{Callables} (handler : handler_ptr) (topic : string)
    (args : list iface) : TaskRun :=
  match passedArguments ← setUpPublish handler args;
        h ← deref handler;
        Ok (callBack h, passedArguments) with
  | Ok (f, passedArguments) =>
      {| called := Some (f, passedArguments); outcome := Call f passedArguments |}
  | Panic p => {| called := None; outcome := Panics 0 p |}
  end.

(** ** The registry *)

Section Bus.
Context `{Runtime} `{Callables}.

(** doSubscribe handles the subscription logic and is utilized by the
    public Subscribe functions. *)
Definition doSubscribe (topic : string) (fn : iface) (handler : handler_ptr)
  : Go (option error) :=
  k <- lift (Kind_ (TypeOf fn));;
  if negb (bool_decide (k = Func)) then
    k <- lift (Kind_ (TypeOf fn));;
    ret (Some (NotFunc k))
  else
    r <- map_get topic;;
    s <- append r.1 handler;;
    map_set topic s;;;
    ret None.

(** Subscribe subscribes to a topic.  Returns error if [fn] is not a
    function. *)
Definition Subscribe (topic : string) (fn : iface) : Go (option error) :=
  doSubscribe topic fn (Some {| callBack := ValueOf fn |}).

(** HasCallback returns true if exists any callback subscribed to the
    topic. *)
Definition HasCallback (topic : string) : Go bool :=
  r <- map_get topic;;
  if r.2 then
    r <- map_get topic;;
    ret (bool_decide (0 < len r.1)%nat)
  else ret false.

(** The loop of findHandlerIdx over the handlers from index [idx] on. *)
Fixpoint findHandlerIdx_loop (callback : Value) (idx : nat)
    (hs : list handler_ptr) : result Z :=
  match hs with
  | [] => Ok (-1)
  | handler :: rest =>
      h ← deref handler;
      t1 ← Type_ (callBack h);
      t2 ← Type_ callback;
      same ← (if decide (t1 = t2) then
                p1 ← Pointer (callBack h);
                p2 ← Pointer callback;
                Ok (bool_decide (p1 = p2))
              else Ok false);
      if same : bool then Ok (Z.of_nat idx)
      else findHandlerIdx_loop callback (S idx) rest
  end.

Definition findHandlerIdx (topic : string) (callback : Value) : Go Z :=
  r <- map_get topic;;
  if r.2 then
    r <- map_get topic;;
    hs <- range r.1;;
    lift (findHandlerIdx_loop callback 0 hs)
  else ret (-1).

(** The source writes [bus.handlers[topic]] anew in each statement; the map
    is written by the last statement only, so the slice read after the
    comma-ok test is the one every statement sees. *)
Definition removeHandler (topic : string) (idx : Z) : Go unit :=
  r <- map_get topic;;
  if negb r.2 then ret () else
  r <- map_get topic;;
  let l := len r.1 in
  if negb (bool_decide (0 ≤ idx) && bool_decide (idx < Z.of_nat l)) then ret () else
  dst <- lift (slice_from r.1 (Z.to_nat idx));;
  src <- lift (slice_from r.1 (Z.to_nat (idx + 1)));;
  copy dst src;;;
  index_set r.1 (l - 1) None;;;
  s <- lift (slice_to r.1 (l - 1));;
  map_set topic s.

(** Unsubscribe removes callback defined for a topic.  Returns error if
    there are no callbacks subscribed to the topic.  (The test reads the map
    twice, [ok && len(bus.handlers[topic]) > 0]; both reads give [r].) *)
Definition Unsubscribe (topic : string) (handler : iface) : Go (option error) :=
  r <- map_get topic;;
  if r.2 && bool_decide (0 < len r.1)%nat then
    idx <- findHandlerIdx topic (ValueOf handler);;
    removeHandler topic idx;;;
    ret None
  else ret (Some (TopicNotExist topic)).

(** ** The dispatchers *)

(** A goroutine started by [go bus.doPublish(handler, topic, args...)]: the
    operands of the call are evaluated when the statement runs. *)
Record Task : Type := {
  task_handler : handler_ptr;
  task_topic : string;
  task_args : list iface
}.

(** What a started task does when it is scheduled. *)
Definition run_task (t : Task) : TaskRun :=
  doPublish (task_handler t) (task_topic t) (task_args t).

(** The statement [go bus.doPublish(handler, topic, args...)]. *)
Definition go_doPublish (topic : string) (args : list iface)
    (handler : handler_ptr) : Task :=
  {| task_handler := handler; task_topic := topic; task_args := args |}.

(** [s[i]], read from the store. *)
Definition index_get (m : store) (s : slice) (i : nat) : result handler_ptr :=
  match elems m s !! i with
  | Some v => Ok v
  | None => Panic (IndexOutOfRange i (len s))
  end.

(** [s[i]] at the time the statement runs. *)
Definition index (s : slice) (i : nat) : Go handler_ptr := λ bus,
  (bus, index_get (mem bus) s i).

(** What the other goroutines do to the bus while a call is under way:
    [others i] is what happens to the bus before the [i]-th iteration of the
    loop of the call.  A call that runs [alone] meets nothing. *)
Definition interference : Type := nat → EventBus → EventBus.

Definition alone : interference := λ _ bus, bus.

Definition meanwhile (f : EventBus → EventBus) : Go unit := λ bus,
  (f bus, Ok ()).

(** The loop [for _, handler := range copyHandlers] of Publish, from
    iteration [i] on, with [n] iterations to go: the slice is evaluated once,
    its elements are read one at each iteration, and each iteration runs one
    [go] statement. *)
Fixpoint Publish_loop (others : interference) (copyHandlers : slice)
    (topic : string) (args : list iface) (i n : nat) : Go (list Task) :=
  match n with
  | O => ret []
  | S n =>
      meanwhile (others i);;;
      handler <- index copyHandlers i;;
      tasks <- Publish_loop others copyHandlers topic args (S i) n;;
      ret (go_doPublish topic args handler :: tasks)
  end.

(** Publish among other goroutines.  The result is the list of the
    goroutines it started; the call itself returns nothing.  The comment in
    the source gives the reason for the copy: the slice of the map may be
    changed by removeHandler and Unsubscribe during the iteration.  The read
    lock Publish holds until it returns keeps the calls that write out of
    the loop; the other goroutines are given no such limit here. *)
Definition Publish_among (others : interference) (topic : string)
    (args : list iface) : Go (list Task) :=
  r <- map_get topic;;
  let handlers := r.1 in
  if r.2 && bool_decide (0 < len handlers)%nat then
    copyHandlers <- make (len handlers);;
    copy copyHandlers handlers;;;
    Publish_loop others copyHandlers topic args 0 (len copyHandlers)
  else ret [].

(** Publish executes callback defined for a topic.  Any additional argument
    will be transferred to the callback. *)
Definition Publish (topic : string) (args : list iface) : Go (list Task) :=
  Publish_among alone topic args.

(** The body of the goroutine of PublishWithReply, up to the send on
    [done]. *)
Definition reply_body (m : store) (copyHandlers : slice) (args : list iface)
  : TaskRun :=
  match passedArguments ← (h ← index_get m copyHandlers 0; setUpPublish h args);
        h ← index_get m copyHandlers 0;
        e ← deref h;
        Ok (callBack e, passedArguments) with
  | Ok (f, passedArguments) =>
      {| called := Some (f, passedArguments); outcome := Call f passedArguments |}
  | Panic p => {| called := None; outcome := Panics 0 p |}
  end.

(** What a non-nil [interface{}] can hold here: a value with its dynamic
    type, or a reflect.Value (a struct of package reflect that describes a
    value). *)
Inductive dynamic : Type :=
  | Plain (t : rtype) (d : Data)
  | Reflected (v : Value).

(** [v.Interface()]: the value that [v] describes, as an [interface{}]
    ([None] is the nil interface). *)
Definition Interface (v : Value) : result (option dynamic) :=
  match v with
  | VVal t d => Ok (Some (Plain t d))
  | VZero => Panic ValueErrorInterface
  end.

(** What PublishWithReply gives back and causes: the two results of the
    call, how long the caller was blocked, the goroutine it started (if any)
    and what the deferred [recover] of that goroutine printed.  [None] is
    the nil interface. *)
Record ReplyRun : Type := {
  reply : option dynamic;
  err : option error;
  waited : N;
  started : option TaskRun;
  printed : list panic
}.

Definition get_mem : Go store := λ bus, (bus, Ok (mem bus)).

(** How the scheduler settles what the clock does not: which case the
    [select] takes when the result list is sent no earlier than the timer
    fires, and, when it is the timer's, whether the send finds the channel
    already closed by the deferred [close(done)] (the channel has room for
    one result list, so a send before the close goes through). *)
Inductive race : Type :=
  | done_wins
  | timer_wins (send_after_close : bool).

(** The case [resultList := <-done] of the [select]: [return resultList[0],
    nil] hands out the reflect.Value itself. *)
Definition received (task : TaskRun) (after : N) (resultList : list Value)
  : ReplyRun :=
  if bool_decide (length resultList = 1%nat) then
    {| reply := Reflected <$> resultList !! 0%nat; err := None; waited := after;
       started := Some task; printed := [] |}
  else
    {| reply := None; err := None; waited := after;
       started := Some task; printed := [] |}.

(** The [select] of PublishWithReply.  The timer of [time.After(timeout)]
    fires at once for a timeout that is not positive.  When the handler
    returns before the timer fires, its result list is received from
    [done]; otherwise [done_first] tells how the race ends.  A goroutine
    that panics sends nothing: its deferred function recovers and prints. *)
Definition await (topic : string) (timeout : Z) (done_first : race)
    (task : TaskRun) : ReplyRun :=
  let fire := Z.to_N timeout in
  let timed_out printed :=
    {| reply := None; err := Some (HandlerTimeout topic); waited := fire;
       started := Some task; printed := printed |} in
  match outcome task with
  | Returns after resultList =>
      if bool_decide (after < fire)%N then received task after resultList
      else
        match done_first with
        | done_wins => received task after resultList
        | timer_wins send_after_close =>
            timed_out (if send_after_close then [SendOnClosedChannel] else [])
        end
  | Panics _ p => timed_out [p]
  | Blocks => timed_out []
  end.

(** PublishWithReply publishes to a topic with a single handler and returns
    the value of that handler. *)
Definition PublishWithReply (topic : string) (timeout : Z) (args : list iface)
    (done_first : race) : Go ReplyRun :=
  r <- map_get topic;;
  let handlers := r.1 in
  if negb r.2 then
    ret {| reply := None; err := Some (TopicNotRegistered topic); waited := 0;
           started := None; printed := [] |}
  else
  let handlerNum := len handlers in
  if negb (bool_decide (handlerNum = 1%nat)) then
    ret {| reply := None; err := Some (HandlerNumWrong topic handlerNum);
           waited := 0; started := None; printed := [] |}
  else
  copyHandlers <- make (len handlers);;
  copy copyHandlers handlers;;;
  m <- get_mem;;
  ret (await topic timeout done_first (reply_body m copyHandlers args)).

(** ** Sequences of calls *)

Inductive op : Type :=
  | OSubscribe (topic : string) (fn : iface)
  | OUnsubscribe (topic : string) (handler : iface)
  | OHasCallback (topic : string)
  | OPublish (topic : string) (args : list iface)
  | OPublishWithReply (topic : string) (timeout : Z) (args : list iface)
                      (done_first : race).

(** The bus after a call (a call that panics leaves the bus as it was when
    the panic was raised). *)
Definition exec (o : op) (bus : EventBus) : EventBus :=
  match o with
  | OSubscribe topic fn => (Subscribe topic fn bus).1
  | OUnsubscribe topic handler => (Unsubscribe topic handler bus).1
  | OHasCallback topic => (HasCallback topic bus).1
  | OPublish topic args => (Publish topic args bus).1
  | OPublishWithReply topic timeout args d =>
      (PublishWithReply topic timeout args d bus).1
  end.

Definition exec_all (ops : list op) (bus : EventBus) : EventBus :=
  foldl (λ b o, exec o b) bus ops.

(** The states of a bus made by [New] and used through its methods. *)
Definition reachable (bus : EventBus) : Prop :=
  ∃ ops, exec_all ops New = bus.

(** The handlers registered under a topic, in the order of the slice; the
    empty list for a topic that is not in the map. *)
Definition registered (bus : EventBus) (topic : string) : list handler_ptr :=
  match handlers bus !! topic with
  | Some s => elems (mem bus) s
  | None => []
  end.

End Bus.

(** ** The invariant of the registry *)

(** A handler made by Subscribe from a function. *)
Definition is_func_handler (p : handler_ptr) : Prop :=
  ∃ t d, p = Some {| callBack := VVal t d |} ∧ kind_of t = Func.

(** A slice of the map starts at the beginning of an allocated array whose
    length is the capacity of the slice. *)
Definition wf_slice (m : store) (s : slice) : Prop :=
  ∃ a arr, array s = Some a ∧ m !! a = Some arr ∧ length arr = cap s ∧
           off s = 0%nat ∧ (len s ≤ cap s)%nat.

Record wf_bus (bus : EventBus) : Prop := {
  wf_slices : ∀ topic s,
    handlers bus !! topic = Some s → wf_slice (mem bus) s;
  wf_funcs : ∀ topic s,
    handlers bus !! topic = Some s →
    Forall is_func_handler (elems (mem bus) s);
  wf_apart : ∀ t1 t2 s1 s2,
    t1 ≠ t2 → handlers bus !! t1 = Some s1 → handlers bus !! t2 = Some s2 →
    array s1 ≠ array s2
}.

(** An allocated array that no slice of the map points into, such as the
    copy a dispatcher iterates over. *)
Definition private (bus : EventBus) (a : loc) : Prop :=
  a ∈ dom (mem bus) ∧
  ∀ topic s, handlers bus !! topic = Some s → array s ≠ Some a.

(** What every call keeps: the invariant, the keys of the map, and the
    arrays that are private. *)
Definition step_ok (bus bus' : EventBus) : Prop :=
  wf_bus bus' ∧
  dom (handlers bus) ⊆ dom (handlers bus') ∧
  (∀ a, private bus a → private bus' a ∧ mem bus' !! a = mem bus !! a).

(** The match Unsubscribe looks for, in the words of the specification: the
    declared type of the handler is the type of the reference and the entry
    point of the handler is the pointer of the reference. *)
Definition identity_match (callback : Value) (p : handler_ptr) : bool :=
  match p, callback with
  | Some {| callBack := VVal t1 d1 |}, VVal t2 d2 =>
      bool_decide (t1 = t2) &&
      match Pointer (VVal t1 d1), Pointer (VVal t2 d2) with
      | Ok p1, Ok p2 => bool_decide (p1 = p2)
      | _, _ => false
      end
  | _, _ => false
  end.

(** The topic has exactly one handler, [h]. *)
Definition sole_handler (bus : EventBus) (topic : string) (h : eventHandler) : Prop :=
  ∃ s, handlers bus !! topic = Some s ∧ len s = 1%nat ∧
       elems (mem bus) s = [Some h].

(** The places of a backing array beyond the length of its slice hold the
    nil pointer: the array keeps no handler that is not registered. *)
Definition spare_slots_nil (bus : EventBus) : Prop :=
  ∀ topic s, handlers bus !! topic = Some s →
    Forall (λ p, p = None) (drop (len s) (backing (mem bus) s)).

(** ** A program that uses the bus *)

Module Sample.

Definition string_type : rtype := MkType String "string" [] false [].
Definition int_type : rtype := MkType Int "int" [] false [].

(** [func(string) string] and [func(int, ...string)] *)
Definition greet_type : rtype := MkType Func EmptyString [string_type] false [string_type].
Definition variadic_type : rtype :=
  MkType Func EmptyString
    [int_type; MkType reflect.Slice EmptyString [] false []] true [].

(** [greet(name) = "hello " + name]; a second closure of the same function
    literal; a function that panics; a function that never returns; a
    variadic function. *)
Definition greet : iface := IVal greet_type (DFunc 4096 0).
Definition greet' : iface := IVal greet_type (DFunc 4096 1).
Definition broken : iface := IVal greet_type (DFunc 8192 0).
Definition sleeper : iface := IVal greet_type (DFunc 12288 0).
Definition logf : iface := IVal variadic_type (DFunc 16384 0).

Definition str (s : string) : iface := IVal string_type (DString s).

#[global] Instance program : Callables := {|
  Call f passedArguments :=
    match f, passedArguments with
    | VVal _ (DFunc 4096 _), [VVal _ (DString name)] =>
        Returns 1 [VVal string_type (DString ("hello " +:+ name))]
    | VVal _ (DFunc 8192 _), _ => Panics 2 (UserPanic "boom")
    | VVal _ (DFunc 12288 _), _ => Blocks
    | VVal _ (DFunc 16384 _), _ => Returns 1 []
    | _, _ => Panics 0 (UserPanic "reflect: Call with wrong arguments")
    end
|}.

(** A bus with two topics. *)
Definition bus2 : EventBus :=
  exec_all [OSubscribe "greet" greet; OSubscribe "log" logf;
            OSubscribe "log" greet; OSubscribe "log" greet'] New.

End Sample.

(** ** Package logger: the levels of the file hook *)

Module logger.

(** logrus.Level is a [uint32]; logrus v1.8.1 (the version of go.mod)
    declares its constants by [iota], from PanicLevel on. *)
Abbreviation Level := N.

Definition PanicLevel : Level := 0.
Definition FatalLevel : Level := 1.
Definition ErrorLevel : Level := 2.
Definition WarnLevel : Level := 3.
Definition InfoLevel : Level := 4.
Definition DebugLevel : Level := 5.
Definition TraceLevel : Level := 6.

(** The [levels] of newLogFileHook, in the order of the source. *)
Definition levels : list Level :=
  [DebugLevel; InfoLevel; WarnLevel; ErrorLevel; FatalLevel; PanicLevel].

(** [int(level)]: the conversion of a [uint32] to [int].  The type [int]
    has [intSize] bits, 32 or 64 with the platform the program is built
    for; a value that does not fit is wrapped around. *)
Definition int (intSize : N) (level : Level) : Z :=
  let modulus := 2 ^ Z.of_N intSize in
  let v := (Z.of_N level mod 2 ^ 32) mod modulus in
  if bool_decide (v < modulus / 2) then v else v - modulus.

(** The [writerMap] newLogFileHook builds for the hook: the loop over
    [levels] gives the writer to each level with
    [int(level) <= int(logLevel)].  The writer is what rotatelogs.New
    returned, whatever it is. *)
Definition writerMap {W : Type} (intSize : N) (writer : W) (logLevel : Level)
  : gmap Level W :=
  foldl (λ m level,
           if bool_decide (int intSize level ≤ int intSize logLevel)
           then <[level := writer]> m else m)
        ∅ levels.

(** The fixed fields of the log entries.  [fixFields] is a variable of type
    logrus.Fields, a [map[string]interface{}]: it holds a reference to a
    map ([None] is the nil map), and the maps live in a store the callers
    share. *)
Record Fields : Type := {
  fixFields : option loc;
  maps : gmap loc (gmap string iface)
}.

(** How a call on the fields ends. *)
Inductive ended : Type :=
  | Returned
  | PanicNilMap.       (* assignment to entry in nil map *)

(** [var fixFields = make(logrus.Fields, 0)], in a store that holds the maps
    of the program. *)
Definition init (program_maps : gmap loc (gmap string iface)) : Fields :=
  let l := fresh (dom program_maps) in
  {| fixFields := Some l; maps := <[l := ∅]> program_maps |}.

(** SetFixedFields: [fixFields = fields]. *)
Definition SetFixedFields (fields : option loc) (st : Fields) : Fields :=
  {| fixFields := fields; maps := maps st |}.

(** AddFixedField: [fixFields[key] = value]. *)
Definition AddFixedField (key : string) (value : iface) (st : Fields)
  : Fields * ended :=
  match fixFields st with
  | Some l =>
      ({| fixFields := fixFields st;
          maps := alter (λ m, <[key := value]> m) l (maps st) |}, Returned)
  | None => (st, PanicNilMap)
  end.

End logger.

(** * Properties *)

(** ** Slices and the store *)

Lemma backing_store_elems_same m s s' i vs :
  array s = array s' →
  backing (store_elems m s' i vs) s = list_inserts (off s' + i) vs (backing m s).
Proof.
  unfold backing, store_elems. intros ->.
  destruct (array s') as [a|]; [|by rewrite list_inserts_nil].
  rewrite lookup_alter_eq. destruct (m !! a); simpl; [done|].
  by rewrite list_inserts_nil.
Qed.

Lemma backing_store_elems_other m s s' i vs :
  array s ≠ array s' →
  backing (store_elems m s' i vs) s = backing m s.
Proof.
  unfold backing, store_elems. intros Hne.
  destruct (array s) as [a|]; [|done].
  destruct (array s') as [a'|]; [|done].
  rewrite lookup_alter_ne; [done|congruence].
Qed.

Lemma backing_insert_other m s a arr :
  array s ≠ Some a → backing (<[a:=arr]> m) s = backing m s.
Proof.
  unfold backing. intros Hne. destruct (array s) as [a'|]; [|done].
  rewrite lookup_insert_ne; [done|congruence].
Qed.

Lemma backing_insert_same m s a arr :
  array s = Some a → backing (<[a:=arr]> m) s = arr.
Proof. unfold backing. intros ->. by rewrite lookup_insert_eq. Qed.

Lemma dom_store_elems m s i vs : dom (store_elems m s i vs) = dom m.
Proof.
  unfold store_elems. destruct (array s); [|done].
  apply set_eq. intros x. rewrite !elem_of_dom, lookup_alter.
  case_decide; subst; [|done]. by rewrite fmap_is_Some.
Qed.

Lemma lookup_store_elems_other m s i vs a :
  array s ≠ Some a → store_elems m s i vs !! a = m !! a.
Proof.
  unfold store_elems. intros Hne. destruct (array s) as [a'|]; [|done].
  rewrite lookup_alter_ne; [done|congruence].
Qed.

(** Removing element [idx] the way removeHandler does: the tail is moved
    one place down, the last place is cleared, the length drops by one. *)
Lemma shift_down_is_delete (arr : list handler_ptr) (l idx : nat) :
  (idx < l)%nat → (l ≤ length arr)%nat →
  take (l - 1) (<[(l - 1)%nat := None]>
     (list_inserts idx (take (l - idx - 1) (drop (S idx) arr)) arr))
  = delete idx (take l arr).
Proof.
  intros Hidx Hl. apply list_eq. intros j.
  destruct (decide (j < l - 1)%nat) as [Hj|Hj].
  - rewrite lookup_take_lt by done.
    rewrite list_lookup_insert_ne by lia.
    destruct (decide (j < idx)%nat) as [Hji|Hji].
    + rewrite list_lookup_inserts_lt by done.
      rewrite list_lookup_delete_lt by done.
      by rewrite lookup_take_lt by lia.
    + rewrite list_lookup_inserts
        by (rewrite ?length_take, ?length_drop; lia).
      rewrite lookup_take_lt by lia. rewrite lookup_drop.
      rewrite list_lookup_delete_ge by lia.
      rewrite lookup_take_lt by lia. f_equal. lia.
  - rewrite lookup_take_ge by lia.
    symmetry. apply lookup_ge_None.
    rewrite length_delete.
    + rewrite length_take. lia.
    + apply lookup_lt_is_Some. rewrite length_take. lia.
Qed.

(** ** The registry keeps its invariant *)

Lemma wf_slice_length m s : wf_slice m s → length (elems m s) = len s.
Proof.
  intros (a & arr & Ha & Hm & Hlen & Hoff & Hle).
  unfold elems, backing. rewrite Ha, Hm, Hoff. simpl.
  rewrite drop_0, length_take. lia.
Qed.

Lemma wf_slice_elems m s :
  wf_slice m s → elems m s = take (len s) (backing m s).
Proof.
  intros (a & arr & Ha & Hm & Hlen & Hoff & Hle).
  unfold elems. by rewrite Hoff, drop_0.
Qed.

Lemma wf_slice_backing m s :
  wf_slice m s → length (backing m s) = cap s.
Proof.
  intros (a & arr & Ha & Hm & Hlen & Hoff & Hle).
  unfold backing. by rewrite Ha, Hm.
Qed.

(** Replacing the slice of one topic, in a store that agrees with the old
    one on the arrays of the other topics, keeps the invariant. *)
Lemma wf_update bus topic s' m' :
  wf_bus bus →
  wf_slice m' s' →
  Forall is_func_handler (elems m' s') →
  (∀ t s, t ≠ topic → handlers bus !! t = Some s → array s ≠ array s') →
  (∀ a, array s' ≠ Some a → a ∈ dom (mem bus) → m' !! a = mem bus !! a) →
  wf_bus {| handlers := <[topic := s']> (handlers bus); mem := m' |}.
Proof.
  intros [Hs Hf Ha] Hs' Hf' Hapart Hagree.
  assert (Hother : ∀ t s, t ≠ topic → handlers bus !! t = Some s →
             wf_slice m' s ∧ elems m' s = elems (mem bus) s).
  { intros t s Hne Hin. destruct (Hs _ _ Hin) as (a & arr & E1 & E2 & E3 & E4 & E5).
    assert (m' !! a = Some arr) as Hm'.
    { rewrite Hagree; [done| |by apply elem_of_dom].
      intros E. apply (Hapart t s Hne Hin). congruence. }
    split; [by exists a, arr|].
    unfold elems, backing. by rewrite E1, Hm', E2. }
  split; simpl.
  - intros t s. rewrite lookup_insert. case_decide as Hne; [by intros [= <-]|].
    intros Hin. apply (Hother t s); [congruence|done].
  - intros t s. rewrite lookup_insert. case_decide as Hne; [by intros [= <-]|].
    intros Hin. assert (t ≠ topic) as Hne' by congruence.
    destruct (Hother t s Hne' Hin) as [_ ->]. eauto.
  - intros t1 t2 s1 s2 Hne. rewrite !lookup_insert.
    repeat case_decide; simplify_eq; intros; simplify_eq; eauto.
    intros E. eapply Hapart; [| |symmetry]; eauto.
Qed.

(** Allocating an array that no slice points to keeps the invariant and the
    handlers of every topic. *)
Lemma wf_alloc bus a arr :
  wf_bus bus → a ∉ dom (mem bus) →
  wf_bus {| handlers := handlers bus; mem := <[a:=arr]> (mem bus) |}.
Proof.
  intros [Hs Hf Ha] Hfresh.
  assert (Hother : ∀ t s, handlers bus !! t = Some s →
             wf_slice (<[a:=arr]> (mem bus)) s ∧
             elems (<[a:=arr]> (mem bus)) s = elems (mem bus) s).
  { intros t s Hin. destruct (Hs _ _ Hin) as (a' & arr' & E1 & E2 & E3 & E4 & E5).
    assert (a ≠ a') by (intros ->; apply Hfresh, elem_of_dom; eauto).
    split.
    - exists a', arr'. by rewrite lookup_insert_ne.
    - unfold elems. rewrite backing_insert_other; [done|congruence]. }
  split; simpl; [| |done].
  - intros t s Hin. by apply (Hother t s).
  - intros t s Hin. destruct (Hother t s Hin) as [_ ->]. eauto.
Qed.

(** ** Subscribe *)

Section Registry.
Context `{Runtime} `{Callables}.

Ltac go_unfold :=
  unfold bind, ret, lift, map_get, map_set, get_mem, range; simpl.

Ltac case_if :=
  match goal with
  | |- context [match ?x with left _ => _ | right _ => _ end] => destruct x
  end.

Lemma Subscribe_nil topic bus :
  Subscribe topic INil bus = (bus, Panic NilDereference).
Proof. reflexivity. Qed.

Lemma Subscribe_not_func topic t d bus :
  kind_of t ≠ Func →
  Subscribe topic (IVal t d) bus = (bus, Ok (Some (NotFunc (kind_of t)))).
Proof.
  intros Hk. unfold Subscribe, doSubscribe. go_unfold.
  by rewrite bool_decide_eq_false_2.
Qed.

(** The bus after a successful Subscribe. *)
Lemma Subscribe_func topic t d bus :
  kind_of t = Func →
  wf_bus bus →
  ∃ bus', Subscribe topic (IVal t d) bus = (bus', Ok None) ∧
    wf_bus bus' ∧
    dom (handlers bus') = {[topic]} ∪ dom (handlers bus) ∧
    registered bus' topic
      = registered bus topic ++ [Some {| callBack := VVal t d |}] ∧
    (∀ t', t' ≠ topic → handlers bus' !! t' = handlers bus !! t' ∧
                         registered bus' t' = registered bus t') ∧
    (∀ a, private bus a → private bus' a ∧ mem bus' !! a = mem bus !! a).
Proof.
  intros Hk Hwf. unfold Subscribe, doSubscribe. go_unfold.
  rewrite bool_decide_eq_true_2 by done. simpl.
  set (h := Some {| callBack := VVal t d |}).
  assert (Hh : is_func_handler h) by (by exists t, d).
  destruct (handlers bus !! topic) as [s|] eqn:Hs; simpl.
  - destruct (wf_slices _ Hwf _ _ Hs) as (a & arr & E1 & E2 & E3 & E4 & E5).
    pose proof (wf_slice_elems _ _ (wf_slices _ Hwf _ _ Hs)) as Hel.
    unfold append. case_decide as Hcap; simpl.
    + eexists. split; [done|].
      assert (Hnew : elems (store_elems (mem bus) s (len s) [h])
                       (Slice (array s) (off s) (S (len s)) (cap s))
                     = elems (mem bus) s ++ [h]).
      { unfold elems at 1. simpl.
        rewrite (backing_store_elems_same _ _ s) by done.
        rewrite E4. simpl. rewrite drop_0.
        change (backing (mem bus) (Slice (array s) 0 (S (len s)) (cap s)))
          with (backing (mem bus) s).
        rewrite Hel. rewrite (take_S_r _ _ h).
        - by rewrite take_insert_ge by lia.
        - apply list_lookup_insert_eq.
          rewrite (wf_slice_backing _ _ (wf_slices _ Hwf _ _ Hs)). lia. }
      split; [|split; [|split; [|split]]].
      * apply wf_update; simpl; [done| | | |].
        -- exists a, (<[len s := h]> arr). unfold store_elems. rewrite E1, E4.
           simpl. rewrite lookup_alter_eq, E2. simpl.
           rewrite length_insert. repeat split; first [done | lia].
        -- rewrite Hnew. apply Forall_app. split; [|by constructor].
           by apply (wf_funcs _ Hwf topic).
        -- intros t' s' Hne Hin. by apply (wf_apart _ Hwf t' topic).
        -- intros a' Hne _. apply lookup_store_elems_other. congruence.
      * simpl. by rewrite dom_insert_L.
      * unfold registered. simpl. rewrite lookup_insert_eq, Hs. done.
      * intros t' Hne. unfold registered. simpl.
        rewrite lookup_insert_ne by done. split; [done|].
        destruct (handlers bus !! t') as [s'|] eqn:Hs'; [|done].
        unfold elems. rewrite backing_store_elems_other; [done|].
        by apply (wf_apart _ Hwf t' topic).
      * intros a' [Hdom Hpriv]. split; [split|]; simpl.
        -- by rewrite dom_store_elems.
        -- intros t' s'. rewrite lookup_insert. case_decide; [|by eauto].
           intros [= <-]. simpl. by apply (Hpriv topic).
        -- apply lookup_store_elems_other. by apply (Hpriv topic).
    + set (a' := fresh (dom (mem bus))).
      assert (Hfresh : a' ∉ dom (mem bus)) by apply is_fresh.
      set (newcap := growslice (cap s) (S (len s))).
      pose proof (growslice_fits (cap s) (S (len s))) as Hfits. fold newcap in Hfits.
      pose proof (wf_slice_length _ _ (wf_slices _ Hwf _ _ Hs)) as Hlen.
      eexists. split; [done|].
      assert (Hnew : elems (<[a' := elems (mem bus) s ++ h :: replicate (newcap - S (len s)) None]> (mem bus))
                       (Slice (Some a') 0 (S (len s)) newcap)
                     = elems (mem bus) s ++ [h]).
      { unfold elems at 1. simpl. rewrite backing_insert_same by done.
        rewrite drop_0, (cons_middle h), app_assoc.
        apply take_app_length'. rewrite length_app, Hlen. simpl. lia. }
      split; [|split; [|split; [|split]]].
      * apply wf_update; simpl; [done| | | |].
        -- eexists a', _. simpl. rewrite lookup_insert_eq.
           repeat split; [|lia]. rewrite length_app, Hlen. simpl.
           rewrite length_replicate. lia.
        -- rewrite Hnew. apply Forall_app. split; [|by constructor].
           by apply (wf_funcs _ Hwf topic).
        -- intros t' s' Hne Hin. simpl.
           destruct (wf_slices _ Hwf _ _ Hin) as (a0 & arr0 & F1 & F2 & _).
           rewrite F1. intros [= ->]. apply Hfresh, elem_of_dom. eauto.
        -- intros a0 Hne _. apply lookup_insert_ne. congruence.
      * simpl. by rewrite dom_insert_L.
      * unfold registered. simpl. rewrite lookup_insert_eq, Hs. done.
      * intros t' Hne. unfold registered. simpl.
        rewrite lookup_insert_ne by done. split; [done|].
        destruct (handlers bus !! t') as [s'|] eqn:Hs'; [|done].
        unfold elems. rewrite backing_insert_other; [done|].
        destruct (wf_slices _ Hwf _ _ Hs') as (a0 & arr0 & F1 & F2 & _).
        rewrite F1. intros [= ->]. apply Hfresh, elem_of_dom. eauto.
      * intros a0 [Hdom Hpriv]. assert (a0 ≠ a') by congruence.
        split; [split|]; simpl.
        -- rewrite dom_insert_L. set_solver.
        -- intros t' s'. rewrite lookup_insert. case_decide; [|by eauto].
           intros [= <-]. simpl. congruence.
        -- by apply lookup_insert_ne.
  - set (a' := fresh (dom (mem bus))).
    assert (Hfresh : a' ∉ dom (mem bus)) by apply is_fresh.
    set (newcap := growslice 0 1).
    pose proof (growslice_fits 0 1) as Hfits. fold newcap in Hfits.
    eexists. split; [done|].
    assert (Hnew : elems (<[a' := h :: replicate (newcap - 1) None]> (mem bus))
                     (Slice (Some a') 0 1 newcap) = [h]).
    { unfold elems at 1. simpl. by rewrite backing_insert_same by done. }
    split; [|split; [|split; [|split]]].
    * apply wf_update; simpl; [done| | | |].
      -- eexists a', _. simpl. rewrite lookup_insert_eq.
         repeat split; [|lia]. simpl. rewrite length_replicate. lia.
      -- rewrite Hnew. by repeat constructor.
      -- intros t' s' Hne Hin. simpl.
         destruct (wf_slices _ Hwf _ _ Hin) as (a0 & arr0 & F1 & F2 & _).
         rewrite F1. intros [= ->]. apply Hfresh, elem_of_dom. eauto.
      -- intros a0 Hne _. apply lookup_insert_ne. congruence.
    * simpl. by rewrite dom_insert_L.
    * unfold registered. simpl. rewrite lookup_insert_eq, Hs. done.
    * intros t' Hne. unfold registered. simpl.
      rewrite lookup_insert_ne by done. split; [done|].
      destruct (handlers bus !! t') as [s'|] eqn:Hs'; [|done].
      unfold elems. rewrite backing_insert_other; [done|].
      destruct (wf_slices _ Hwf _ _ Hs') as (a0 & arr0 & F1 & F2 & _).
      rewrite F1. intros [= ->]. apply Hfresh, elem_of_dom. eauto.
    * intros a0 [Hdom Hpriv]. assert (a0 ≠ a') by congruence.
      split; [split|]; simpl.
      -- rewrite dom_insert_L. set_solver.
      -- intros t' s'. rewrite lookup_insert. case_decide; [|by eauto].
         intros [= <-]. simpl. congruence.
      -- by apply lookup_insert_ne.
Qed.

(** ** Unsubscribe *)

Lemma findHandlerIdx_loop_zero idx p hs :
  is_func_handler p →
  findHandlerIdx_loop VZero idx (p :: hs) = Panic ValueErrorType.
Proof. by intros (t & d & -> & Hk). Qed.

(** On the handlers of the registry, and for a reference that is not nil,
    the loop finds the first handler that matches. *)
Lemma findHandlerIdx_loop_find t d hs idx :
  Forall is_func_handler hs →
  findHandlerIdx_loop (VVal t d) idx hs
  = Ok (match list_find (λ p, identity_match (VVal t d) p = true) hs with
        | Some (j, _) => Z.of_nat (idx + j)
        | None => -1
        end).
Proof.
  intros Hhs. revert idx. induction Hhs as [|p hs (t1 & d1 & -> & Hk) _ IH]; intros idx.
  - done.
  - destruct t1 as [k1 n1 i1 v1 o1]. simpl in Hk. subst k1.
    cbn [findHandlerIdx_loop list_find]. simpl.
    destruct (decide (MkType Func n1 i1 v1 o1 = t)) as [<-|Hne].
    + rewrite (bool_decide_eq_true_2 (_ = _)) by done. simpl.
      destruct (bool_decide _) eqn:Hp.
      * case_if; [|done]. simpl. do 2 f_equal. lia.
      * case_if; [done|]. rewrite IH.
        destruct (list_find _ hs) as [[j x]|]; simpl; [|done].
        do 2 f_equal. lia.
    + rewrite (bool_decide_eq_false_2 (_ = t)) by done. simpl.
      rewrite IH.
      destruct (list_find _ hs) as [[j x]|]; simpl; [|done].
      do 2 f_equal. lia.
Qed.

Lemma removeHandler_out_of_range topic idx bus :
  idx < 0 → removeHandler topic idx bus = (bus, Ok ()).
Proof.
  intros Hidx. unfold removeHandler. go_unfold.
  destruct (handlers bus !! topic) as [s|] eqn:Hs; simpl; [|done].
  rewrite Hs. simpl.
  rewrite (bool_decide_eq_false_2 (0 ≤ idx)) by lia. done.
Qed.

(** The bus after removeHandler has removed the handler at [idx]. *)
Lemma removeHandler_in_range topic (idx : nat) s bus :
  wf_bus bus →
  handlers bus !! topic = Some s →
  (idx < len s)%nat →
  ∃ bus', removeHandler topic (Z.of_nat idx) bus = (bus', Ok ()) ∧
    wf_bus bus' ∧
    dom (handlers bus') = dom (handlers bus) ∧
    registered bus' topic = delete idx (registered bus topic) ∧
    (∀ t', t' ≠ topic → handlers bus' !! t' = handlers bus !! t' ∧
                         registered bus' t' = registered bus t') ∧
    (∀ a, private bus a → private bus' a ∧ mem bus' !! a = mem bus !! a).
Proof.
  intros Hwf Hs Hidx.
  destruct (wf_slices _ Hwf _ _ Hs) as (a & arr & E1 & E2 & E3 & E4 & E5).
  unfold removeHandler. go_unfold. rewrite Hs. simpl. rewrite Hs. simpl.
  rewrite (bool_decide_eq_true_2 (0 ≤ Z.of_nat idx)) by lia.
  rewrite (bool_decide_eq_true_2 (Z.of_nat idx < Z.of_nat (len s))) by lia.
  simpl. unfold slice_from, slice_to.
  rewrite Nat2Z.id.
  replace (Z.to_nat (Z.of_nat idx + 1)) with (S idx) by lia.
  rewrite !decide_True by lia. simpl.
  unfold index_set. rewrite decide_True by lia. simpl.
  eexists. split; [done|].
  set (m' := store_elems _ s (len s - 1) [None]).
  set (s' := Slice (array s) (off s) (len s - 1) (cap s)).
  assert (Hb : backing m' s'
     = <[(len s - 1)%nat := None]>
         (list_inserts idx (take (len s - idx - 1) (drop (S idx) arr)) arr)).
  { unfold m'. rewrite (backing_store_elems_same _ s' s) by done.
    rewrite E4. simpl.
    rewrite (backing_store_elems_same _ s') by done. simpl.
    rewrite Nat.add_0_r.
    unfold elems. simpl.
    rewrite take_take.
    assert (Harr : ∀ x y z, backing (mem bus) (Slice (array s) x y z) = arr).
    { intros. unfold backing. simpl. by rewrite E1, E2. }
    unfold s'. rewrite !Harr.
    do 3 f_equal. lia. }
  assert (Hnew : elems m' s' = delete idx (elems (mem bus) s)).
  { unfold elems at 1. rewrite Hb. unfold s' at 1 2. simpl.
    rewrite E4, drop_0. rewrite shift_down_is_delete by lia.
    unfold elems, backing. by rewrite E1, E2, E4, drop_0. }
  assert (Hm' : ∀ a', a' ≠ a → m' !! a' = mem bus !! a').
  { intros a' Hne. unfold m'.
    rewrite lookup_store_elems_other by congruence.
    apply lookup_store_elems_other. simpl. congruence. }
  split; [|split; [|split; [|split]]].
  - apply wf_update; simpl; [done| | | |].
    + eexists a, _. unfold s'. simpl. split; [done|].
      split; [|split; [|split; [done|lia]]].
      * unfold m', store_elems. rewrite E1. simpl.
        rewrite !lookup_alter_eq, E2. simpl. done.
      * rewrite length_insert, length_inserts. done.
    + rewrite Hnew. rewrite delete_take_drop.
      pose proof (wf_funcs _ Hwf _ _ Hs) as Hf.
      apply Forall_app. split; [by apply Forall_take|by apply Forall_drop].
    + intros t' s0 Hne Hin. by apply (wf_apart _ Hwf t' topic).
    + intros a' Hne _. apply Hm'. congruence.
  - simpl. rewrite dom_insert_L. apply subseteq_union_1_L.
    apply singleton_subseteq_l, elem_of_dom. eauto.
  - unfold registered at 1. simpl. rewrite lookup_insert_eq.
    unfold registered. by rewrite Hs.
  - intros t' Hne. unfold registered. simpl.
    rewrite lookup_insert_ne by done. split; [done|].
    destruct (handlers bus !! t') as [s0|] eqn:Hs0; [|done].
    unfold elems, backing.
    destruct (wf_slices _ Hwf _ _ Hs0) as (a0 & arr0 & F1 & F2 & _).
    rewrite F1, Hm'; [done|].
    intros ->. apply (wf_apart _ Hwf t' topic s0 s); [done..|congruence].
  - intros a' [Hdom Hpriv].
    assert (a' ≠ a) by (intros ->; by apply (Hpriv topic s)).
    split; [split|]; simpl.
    + unfold m'. by rewrite !dom_store_elems.
    + intros t' s0. rewrite lookup_insert. case_decide; [|by eauto].
      intros [= <-]. simpl. congruence.
    + by apply Hm'.
Qed.

Lemma Unsubscribe_unknown topic r bus :
  (∀ s, handlers bus !! topic = Some s → len s = 0%nat) →
  Unsubscribe topic r bus = (bus, Ok (Some (TopicNotExist topic))).
Proof.
  intros Hs. unfold Unsubscribe. go_unfold.
  destruct (handlers bus !! topic) as [s|]; simpl; [|done].
  by rewrite (Hs s eq_refl).
Qed.

(** A nil reference: the first comparison of findHandlerIdx panics. *)
Lemma Unsubscribe_nil topic s bus :
  wf_bus bus → handlers bus !! topic = Some s → (0 < len s)%nat →
  Unsubscribe topic INil bus = (bus, Panic ValueErrorType).
Proof.
  intros Hwf Hs Hlen. unfold Unsubscribe, findHandlerIdx. go_unfold.
  rewrite Hs. simpl. rewrite bool_decide_eq_true_2 by done. simpl.
  rewrite Hs. simpl. rewrite Hs. simpl.
  pose proof (wf_funcs _ Hwf _ _ Hs) as Hf.
  pose proof (wf_slice_length _ _ (wf_slices _ Hwf _ _ Hs)) as Hl.
  destruct (elems (mem bus) s) as [|p hs]; simpl in Hl; [lia|].
  inversion_clear Hf as [|?? Hp _].
  by rewrite findHandlerIdx_loop_zero.
Qed.

(** A reference that is not nil: the first handler that matches it is
    removed; without a match the bus is left as it is. *)
Lemma Unsubscribe_found topic t d s bus :
  wf_bus bus → handlers bus !! topic = Some s → (0 < len s)%nat →
  ∃ bus', Unsubscribe topic (IVal t d) bus = (bus', Ok None) ∧
    wf_bus bus' ∧
    dom (handlers bus') = dom (handlers bus) ∧
    match list_find (λ p, identity_match (VVal t d) p = true)
                    (registered bus topic) with
    | Some (j, _) => registered bus' topic = delete j (registered bus topic)
    | None => bus' = bus
    end ∧
    (∀ t', t' ≠ topic → handlers bus' !! t' = handlers bus !! t' ∧
                         registered bus' t' = registered bus t') ∧
    (∀ a, private bus a → private bus' a ∧ mem bus' !! a = mem bus !! a).
Proof.
  intros Hwf Hs Hlen. unfold Unsubscribe, findHandlerIdx. go_unfold.
  rewrite Hs. simpl. rewrite bool_decide_eq_true_2 by done. simpl.
  rewrite Hs. simpl. rewrite Hs. simpl.
  rewrite findHandlerIdx_loop_find by apply (wf_funcs _ Hwf _ _ Hs).
  assert (Hr : registered bus topic = elems (mem bus) s)
    by (unfold registered; by rewrite Hs).
  rewrite Hr.
  destruct (list_find _ _) as [[j p]|] eqn:Hfind; simpl.
  - apply list_find_Some in Hfind as (Hj & _ & _).
    apply lookup_lt_Some in Hj.
    rewrite (wf_slice_length _ _ (wf_slices _ Hwf _ _ Hs)) in Hj.
    destruct (removeHandler_in_range topic j s bus Hwf Hs Hj)
      as (bus' & -> & Hwf' & Hdom & Hreg & Hoth & Hpriv).
    exists bus'. rewrite Hr in Hreg. done.
  - rewrite removeHandler_out_of_range by lia.
    exists bus. split_and!; by intros.
Qed.

(** ** The dispatchers *)

(** The store after [make] and [copy] have made the copy of a slice. *)
Lemma snapshot_mem (m : store) (s : slice) (a : loc) :
  length (elems m s) = len s → array s ≠ Some a →
  store_elems (<[a:=replicate (len s) None]> m)
    (Slice (Some a) 0 (len s) (len s)) 0
    (take (len s `min` len s)
       (elems (<[a:=replicate (len s) None]> m) s))
  = <[a := elems m s]> m.
Proof.
  intros Hlen Hne. unfold store_elems. simpl.
  rewrite alter_insert_eq. f_equal.
  unfold elems at 1. rewrite backing_insert_other by done.
  fold (elems m s). rewrite Nat.min_id, take_ge by lia.
  rewrite <- (app_nil_r (elems m s)) at 1.
  apply list_inserts_0_l. by rewrite length_replicate.
Qed.

Lemma wf_slice_not_fresh m s :
  wf_slice m s → array s ≠ Some (fresh (dom m)).
Proof.
  intros (a & arr & E1 & E2 & _) E.
  apply (is_fresh (dom m)). apply elem_of_dom. exists arr. congruence.
Qed.

(** The loop of Publish over an array that the other goroutines leave as
    it is: one task for each element, in the order of the array. *)
Lemma Publish_loop_snapshot (I : EventBus → Prop) others a snap topic args :
  (∀ i bus, I bus → I (others i bus)) →
  (∀ bus, I bus → mem bus !! a = Some snap) →
  ∀ n i bus, I bus → (i + n = length snap)%nat →
  ∃ bus',
    Publish_loop others (Slice (Some a) 0 (length snap) (length snap))
      topic args i n bus
    = (bus', Ok (go_doPublish topic args <$> drop i snap)) ∧ I bus'.
Proof.
  intros Hothers Hmem. induction n as [|n IH]; intros i bus HI Hin; simpl.
  - exists bus. split; [|done]. rewrite drop_ge by lia. done.
  - unfold bind at 1, meanwhile. simpl.
    pose proof (Hothers i bus HI) as HI1.
    unfold bind at 1, index, index_get, elems, backing. simpl.
    rewrite (Hmem _ HI1). simpl. rewrite drop_0, take_ge by lia.
    destruct (snap !! i) as [v|] eqn:Hv;
      [|apply lookup_ge_None in Hv; lia].
    destruct (IH (S i) (others i bus) HI1) as (bus' & Hloop & HI'); [lia|].
    exists bus'. split; [|done].
    unfold bind, ret. rewrite Hloop. simpl.
    by rewrite (drop_S _ _ _ Hv).
Qed.

(** Publish on a topic with handlers, among other goroutines that leave the
    copy as it is: one task is started for each handler. *)
Lemma Publish_among_some (I : EventBus → Prop) others topic args s bus :
  wf_bus bus → handlers bus !! topic = Some s → (0 < len s)%nat →
  let a := fresh (dom (mem bus)) in
  let bus' := {| handlers := handlers bus;
                 mem := <[a := elems (mem bus) s]> (mem bus) |} in
  (∀ i bus, I bus → I (others i bus)) →
  (∀ bus0, I bus0 → mem bus0 !! a = Some (elems (mem bus) s)) →
  I bus' →
  ∃ bus'',
    Publish_among others topic args bus
    = (bus'', Ok (go_doPublish topic args <$> registered bus topic)) ∧ I bus''.
Proof.
  intros Hwf Hs Hlen a bus' Hothers Hmem HI.
  pose proof (wf_slices _ Hwf _ _ Hs) as Hws.
  pose proof (wf_slice_length _ _ Hws) as Hl.
  destruct (Publish_loop_snapshot I others a (elems (mem bus) s) topic args
              Hothers Hmem (len s) 0%nat bus' HI) as (bus'' & Hloop & HI'');
    [lia|].
  exists bus''. split; [|done].
  unfold Publish_among. go_unfold. rewrite Hs. simpl.
  rewrite bool_decide_eq_true_2 by done. simpl.
  unfold make, copy. simpl.
  rewrite snapshot_mem; [|done|by apply wf_slice_not_fresh].
  rewrite Hl, drop_0 in Hloop. etrans; [exact Hloop|].
  unfold registered. by rewrite Hs.
Qed.

(** Publish on a topic with handlers: the map is left as it is, the store
    gets the copy, and one task is started for each handler. *)
Lemma Publish_some topic args s bus :
  wf_bus bus → handlers bus !! topic = Some s → (0 < len s)%nat →
  let a := fresh (dom (mem bus)) in
  let bus' := {| handlers := handlers bus;
                 mem := <[a := elems (mem bus) s]> (mem bus) |} in
  Publish topic args bus
    = (bus', Ok (go_doPublish topic args <$> registered bus topic)) ∧
  private bus' a.
Proof.
  intros Hwf Hs Hlen a bus'. split.
  - destruct (Publish_among_some (λ b, b = bus') alone topic args s bus
                Hwf Hs Hlen) as (bus'' & Hpub & ->); try done.
    intros ? ->. simpl. by rewrite lookup_insert_eq.
  - split; simpl.
    + rewrite dom_insert_L. set_solver.
    + intros t' s' Hs'. by apply wf_slice_not_fresh, (wf_slices _ Hwf t').
Qed.

Lemma Publish_none topic args bus :
  (∀ s, handlers bus !! topic = Some s → len s = 0%nat) →
  Publish topic args bus = (bus, Ok []).
Proof.
  intros Hs. unfold Publish, Publish_among. go_unfold.
  destruct (handlers bus !! topic) as [s|]; simpl; [|done].
  by rewrite (Hs s eq_refl).
Qed.

Lemma elems_not_fresh (m : store) (s : slice) :
  elems m s ≠ [] → array s ≠ Some (fresh (dom m)).
Proof.
  intros Hne E. apply Hne. unfold elems, backing. rewrite E.
  assert (m !! fresh (dom m) = None) as ->.
  { apply not_elem_of_dom, is_fresh. }
  simpl. by rewrite drop_nil, take_nil.
Qed.

(** What the goroutine of PublishWithReply does when the copy holds the
    handler [h]. *)
Lemma reply_body_handler m copyHandlers args h hs :
  elems m copyHandlers = Some h :: hs →
  reply_body m copyHandlers args
  = match setUpPublish (Some h) args with
    | Ok passedArguments =>
        {| called := Some (callBack h, passedArguments);
           outcome := Call (callBack h) passedArguments |}
    | Panic p => {| called := None; outcome := Panics 0 p |}
    end.
Proof.
  intros Hel. unfold reply_body, index_get. rewrite Hel. simpl.
  by destruct (setUpPublish (Some h) args).
Qed.

Lemma doPublish_handler topic args h :
  doPublish (Some h) topic args
  = match setUpPublish (Some h) args with
    | Ok passedArguments =>
        {| called := Some (callBack h, passedArguments);
           outcome := Call (callBack h) passedArguments |}
    | Panic p => {| called := None; outcome := Panics 0 p |}
    end.
Proof. unfold doPublish. by destruct (setUpPublish (Some h) args). Qed.

(** PublishWithReply on a topic with one handler: the goroutine is started
    on the copy and the caller waits in the [select]. *)
Lemma PublishWithReply_one topic timeout args done_first h bus :
  sole_handler bus topic h →
  let a := fresh (dom (mem bus)) in
  let bus' := {| handlers := handlers bus;
                 mem := <[a := [Some h]]> (mem bus) |} in
  PublishWithReply topic timeout args done_first bus
  = (bus', Ok (await topic timeout done_first
       match setUpPublish (Some h) args with
       | Ok passedArguments =>
           {| called := Some (callBack h, passedArguments);
              outcome := Call (callBack h) passedArguments |}
       | Panic p => {| called := None; outcome := Panics 0 p |}
       end)).
Proof.
  intros (s & Hs & Hlen & Hel) a bus'.
  unfold PublishWithReply. go_unfold. rewrite Hs. simpl.
  rewrite Hlen. simpl. unfold make, copy. simpl.
  pose proof (snapshot_mem (mem bus) s a) as Hsnap.
  rewrite Hlen, Hel in Hsnap. simpl in Hsnap. unfold a in Hsnap.
  rewrite Hsnap; [|done|].
  - do 3 f_equal. apply (reply_body_handler _ _ _ h []).
    unfold elems. simpl. by rewrite backing_insert_same.
  - apply elems_not_fresh. by rewrite Hel.
Qed.

Lemma PublishWithReply_unknown topic timeout args done_first bus :
  handlers bus !! topic = None →
  PublishWithReply topic timeout args done_first bus
  = (bus, Ok {| reply := None; err := Some (TopicNotRegistered topic);
                waited := 0; started := None; printed := [] |}).
Proof. intros Hs. unfold PublishWithReply. go_unfold. by rewrite Hs. Qed.

Lemma PublishWithReply_count topic timeout args done_first s bus :
  handlers bus !! topic = Some s → len s ≠ 1%nat →
  PublishWithReply topic timeout args done_first bus
  = (bus, Ok {| reply := None; err := Some (HandlerNumWrong topic (len s));
                waited := 0; started := None; printed := [] |}).
Proof.
  intros Hs Hlen. unfold PublishWithReply. go_unfold. rewrite Hs. simpl.
  by rewrite bool_decide_eq_false_2.
Qed.

(** ** Every call keeps the invariant *)

(** The part of the state a call can change besides the slices of the
    map: it may allocate one array. *)
Lemma alloc_step bus arr :
  wf_bus bus →
  let bus' := {| handlers := handlers bus;
                 mem := <[fresh (dom (mem bus)) := arr]> (mem bus) |} in
  wf_bus bus' ∧
  (∀ t, registered bus' t = registered bus t) ∧
  (∀ a, private bus a → private bus' a ∧ mem bus' !! a = mem bus !! a).
Proof.
  intros Hwf bus'. split; [|split].
  - apply wf_alloc; [done|apply is_fresh].
  - intros t. unfold registered, bus'. simpl.
    destruct (handlers bus !! t) as [s|] eqn:Hs; [|done].
    unfold elems. rewrite backing_insert_other; [done|].
    by apply wf_slice_not_fresh, (wf_slices _ Hwf t).
  - intros a [Hdom Hpriv].
    assert (a ≠ fresh (dom (mem bus))).
    { intros ->. by apply (is_fresh (dom (mem bus))). }
    split; [split|]; simpl; [|done|by apply lookup_insert_ne].
    rewrite dom_insert_L. set_solver.
Qed.

Lemma step_ok_refl bus : wf_bus bus → step_ok bus bus.
Proof. intros Hwf. split; [done|]. split; [done|]. by intros. Qed.

Lemma step_ok_alloc bus arr :
  wf_bus bus →
  step_ok bus {| handlers := handlers bus;
                 mem := <[fresh (dom (mem bus)) := arr]> (mem bus) |}.
Proof.
  intros Hwf. destruct (alloc_step bus arr Hwf) as (Hw & _ & Hp).
  split; [done|]. split; [done|]. exact Hp.
Qed.

Lemma exec_step o bus : wf_bus bus → step_ok bus (exec o bus).
Proof.
  intros Hwf. destruct o as [topic fn|topic r|topic|topic args|topic timeout args d];
    simpl.
  - destruct fn as [|t d].
    + rewrite Subscribe_nil. by apply step_ok_refl.
    + destruct (decide (kind_of t = Func)) as [Hk|Hk].
      * destruct (Subscribe_func topic t d bus Hk Hwf)
          as (bus' & -> & Hwf' & Hdom & _ & _ & Hpriv).
        split; [done|]. split; [|done]. simpl. rewrite Hdom.
        apply union_subseteq_r.
      * rewrite Subscribe_not_func by done. by apply step_ok_refl.
  - destruct (handlers bus !! topic) as [s|] eqn:Hs.
    + destruct (decide (0 < len s)%nat) as [Hlen|Hlen].
      * destruct r as [|t d].
        -- rewrite (Unsubscribe_nil topic s) by done. by apply step_ok_refl.
        -- destruct (Unsubscribe_found topic t d s bus Hwf Hs Hlen)
             as (bus' & -> & Hwf' & Hdom & _ & _ & Hpriv).
           split; [done|]. split; [|done]. simpl. by rewrite Hdom.
      * rewrite Unsubscribe_unknown; [by apply step_ok_refl|].
        intros s' Hs'. simplify_eq. lia.
    + rewrite Unsubscribe_unknown; [by apply step_ok_refl|]. congruence.
  - unfold HasCallback. go_unfold.
    destruct (handlers bus !! topic) as [s|] eqn:Hs; simpl.
    + rewrite Hs. by apply step_ok_refl.
    + by apply step_ok_refl.
  - destruct (handlers bus !! topic) as [s|] eqn:Hs.
    + destruct (decide (0 < len s)%nat) as [Hlen|Hlen].
      * destruct (Publish_some topic args s bus Hwf Hs Hlen) as (-> & _).
        by apply step_ok_alloc.
      * rewrite Publish_none; [by apply step_ok_refl|].
        intros s' Hs'. simplify_eq. lia.
    + rewrite Publish_none; [by apply step_ok_refl|]. congruence.
  - destruct (handlers bus !! topic) as [s|] eqn:Hs.
    + destruct (decide (len s = 1%nat)) as [Hlen|Hlen].
      * pose proof (wf_slice_length _ _ (wf_slices _ Hwf _ _ Hs)) as Hl.
        pose proof (wf_funcs _ Hwf _ _ Hs) as Hf.
        destruct (elems (mem bus) s) as [|p [|??]] eqn:Hel;
          simpl in Hl; try lia.
        apply Forall_cons_1 in Hf as [(t & d' & -> & _) _].
        rewrite (PublishWithReply_one topic timeout args d
                   {| callBack := VVal t d' |}).
        -- by apply step_ok_alloc.
        -- by exists s.
      * rewrite (PublishWithReply_count _ _ _ _ s) by done.
        by apply step_ok_refl.
    + rewrite PublishWithReply_unknown by done. by apply step_ok_refl.
Qed.

Lemma wf_New : wf_bus New.
Proof. split; intros *; unfold New; simpl; by rewrite ?lookup_empty. Qed.

Lemma exec_all_step ops bus : wf_bus bus → step_ok bus (exec_all ops bus).
Proof.
  revert bus. induction ops as [|o ops IH]; intros bus Hwf; simpl.
  - by apply step_ok_refl.
  - destruct (exec_step o bus Hwf) as (Hwf1 & Hdom1 & Hp1).
    destruct (IH _ Hwf1) as (Hwf2 & Hdom2 & Hp2).
    split; [done|]. split; [by etrans|].
    intros a Ha. destruct (Hp1 a Ha) as [Ha1 E1].
    destruct (Hp2 a Ha1) as [Ha2 E2]. split; [done|congruence].
Qed.

Lemma reachable_wf bus : reachable bus → wf_bus bus.
Proof. intros [ops <-]. apply exec_all_step, wf_New. Qed.

End Registry.

(** ** The arguments of a call *)

Lemma setUpPublish_loop_ok funcType i args passed :
  setUpPublish_loop funcType i args = Ok passed →
  length passed = length args ∧
  ∀ j v, args !! j = Some v →
    match v with
    | INil => ∃ t, In funcType (i + j) = Ok t ∧ passed !! j = Some (Zero t)
    | IVal t d => passed !! j = Some (VVal t d)
    end.
Proof.
  revert i passed. induction args as [|v args IH]; intros i passed; simpl.
  - intros [= <-]. split; [done|]. intros j v. by rewrite lookup_nil.
  - destruct v as [|t d]; simpl.
    + destruct (In funcType i) as [t|p] eqn:Hin; simpl; [|done].
      destruct (setUpPublish_loop funcType (S i) args) as [xs|p] eqn:Hxs;
        simpl; [|done].
      intros [= <-]. destruct (IH _ _ Hxs) as [Hlen Hall].
      split; [simpl; lia|]. intros [|j] v; simpl.
      * intros [= <-]. exists t. by rewrite Nat.add_0_r.
      * intros Hv. specialize (Hall j v Hv).
        by replace (i + S j)%nat with (S i + j)%nat by lia.
    + destruct (setUpPublish_loop funcType (S i) args) as [xs|p] eqn:Hxs;
        simpl; [|done].
      intros [= <-]. destruct (IH _ _ Hxs) as [Hlen Hall].
      split; [simpl; lia|]. intros [|j] v; simpl.
      * by intros [= <-].
      * intros Hv. specialize (Hall j v Hv).
        by replace (i + S j)%nat with (S i + j)%nat by lia.
Qed.

Lemma In_in_range funcType i :
  kind_of funcType = Func → (i < length (ins_of funcType))%nat →
  ∃ t, In funcType i = Ok t ∧ ins_of funcType !! i = Some t.
Proof.
  intros Hk Hi. unfold In. rewrite decide_True by done.
  destruct (lookup_lt_is_Some_2 _ _ Hi) as [t Ht]. rewrite Ht. eauto.
Qed.

Lemma In_out_of_range funcType i :
  kind_of funcType = Func → (length (ins_of funcType) ≤ i)%nat →
  In funcType i = Panic (IndexOutOfRange i (length (ins_of funcType))).
Proof.
  intros Hk Hi. unfold In. rewrite decide_True by done.
  by rewrite (lookup_ge_None_2 _ _ Hi).
Qed.

Lemma setUpPublish_loop_total funcType i args :
  kind_of funcType = Func →
  (∀ j, args !! j = Some INil → (i + j < length (ins_of funcType))%nat) →
  ∃ passed, setUpPublish_loop funcType i args = Ok passed.
Proof.
  intros Hk. revert i. induction args as [|v args IH]; intros i Hnil; simpl.
  - eauto.
  - destruct (IH (S i)) as [xs Hxs].
    { intros j Hj. specialize (Hnil (S j) Hj). lia. }
    rewrite Hxs. destruct v as [|t d]; simpl; [|eauto].
    destruct (In_in_range funcType i Hk) as (t & -> & _).
    { specialize (Hnil 0%nat eq_refl). lia. }
    simpl. eauto.
Qed.

Lemma setUpPublish_loop_panic funcType i args j :
  kind_of funcType = Func →
  args !! j = Some INil → (length (ins_of funcType) ≤ i + j)%nat →
  ∃ k, setUpPublish_loop funcType i args
       = Panic (IndexOutOfRange k (length (ins_of funcType))).
Proof.
  intros Hk. revert i j. induction args as [|v args IH]; intros i j; simpl.
  - by rewrite lookup_nil.
  - intros Hj Hle. destruct v as [|t d]; simpl.
    + destruct (decide (i < length (ins_of funcType))%nat) as [Hi|Hi].
      * destruct (In_in_range funcType i Hk Hi) as (t & -> & _). simpl.
        destruct j as [|j]; [lia|].
        destruct (IH (S i) j) as [k ->]; [done|lia|]. simpl. eauto.
      * rewrite In_out_of_range by (done || lia). simpl. eauto.
    + destruct j as [|j]; [done|].
      destruct (IH (S i) j) as [k ->]; [done|lia|]. simpl. eauto.
Qed.

(** * Main theorems *)

(** ** PublishWithReply *)

(** C1.  PublishWithReply on a topic that has no entry in the map returns
    the error of kind UnknownTopic; on a topic whose slice has a length
    other than 1 (0 included) it returns the error of kind
    HandlerCountMismatch, which carries the topic and the length.  In both
    cases the bus is untouched, no goroutine is started (no handler is
    called) and the caller has not waited: the result does not depend on
    the timeout. *)
Theorem PublishWithReply_error_cases `{Callables}
    topic timeout args done_first bus :
  (handlers bus !! topic = None →
   PublishWithReply topic timeout args done_first bus
   = (bus, Ok {| reply := None; err := Some (TopicNotRegistered topic);
                 waited := 0; started := None; printed := [] |}) ∧
   error_kind (TopicNotRegistered topic) = UnknownTopic) ∧
  (∀ s, handlers bus !! topic = Some s → len s ≠ 1%nat →
   PublishWithReply topic timeout args done_first bus
   = (bus, Ok {| reply := None; err := Some (HandlerNumWrong topic (len s));
                 waited := 0; started := None; printed := [] |}) ∧
   error_kind (HandlerNumWrong topic (len s)) = HandlerCountMismatch).
Proof.
  split.
  - intros Hs. split; [|done]. by apply PublishWithReply_unknown.
  - intros s Hs Hlen. split; [|done]. by apply PublishWithReply_count.
Qed.

Lemma PublishWithReply_error_cases_witness :
  (PublishWithReply "nobody" 100 [Sample.str "x"] done_wins Sample.bus2).2
  = Ok {| reply := None; err := Some (TopicNotRegistered "nobody");
          waited := 0; started := None; printed := [] |} ∧
  (PublishWithReply "log" 100 [Sample.str "x"] done_wins Sample.bus2).2
  = Ok {| reply := None; err := Some (HandlerNumWrong "log" 3);
          waited := 0; started := None; printed := [] |}.
Proof.
  split.
  - destruct (PublishWithReply_error_cases "nobody" 100 [Sample.str "x"]
                done_wins Sample.bus2) as [Hnone _].
    destruct Hnone as [-> _]; reflexivity.
  - destruct (PublishWithReply_error_cases "log" 100 [Sample.str "x"]
                done_wins Sample.bus2) as [_ Hcount].
    destruct (Hcount (Slice (Some 4%positive) 0 3 4)) as [-> _].
    + vm_compute. reflexivity.
    + simpl. lia.
    + reflexivity.
Defined.

(** C2.  On a topic with exactly one handler, when the arguments are set up
    and the call of the handler returns before the timer fires,
    PublishWithReply returns no error, and with no result or several results
    it returns the nil interface.  With exactly one result [v] it does not
    return the value of the handler, [v.Interface()], which the comment of
    the function promises: [return resultList[0], nil] returns the
    reflect.Value [v] itself, in an [interface{}].  The caller waits as long
    as the handler takes, the handler is called once with the arguments that
    were set up, and the map of the bus is as it was. *)
Theorem PublishWithReply_returns_the_reflect_Value `{Callables}
    topic timeout args done_first h bus passedArguments after resultList :
  sole_handler bus topic h →
  setUpPublish (Some h) args = Ok passedArguments →
  Call (callBack h) passedArguments = Returns after resultList →
  (after < Z.to_N timeout)%N →
  ∃ bus' run,
    PublishWithReply topic timeout args done_first bus = (bus', Ok run) ∧
    err run = None ∧
    reply run = match resultList with [v] => Some (Reflected v) | _ => None end ∧
    (∀ v, resultList = [v] → Ok (reply run) ≠ Interface v) ∧
    waited run = after ∧
    started run = Some {| called := Some (callBack h, passedArguments);
                          outcome := Returns after resultList |} ∧
    handlers bus' = handlers bus.
Proof.
  intros Hsole Hargs Hcall Hafter.
  rewrite (PublishWithReply_one _ _ _ _ h) by done.
  rewrite Hargs, Hcall. eexists _, _. split; [done|].
  unfold await. simpl.
  rewrite (bool_decide_eq_true_2 (after < _)%N) by done.
  unfold received.
  destruct resultList as [|v [|??]]; simpl; repeat split; try done.
  intros ? [= <-]. by destruct v.
Qed.

Lemma PublishWithReply_returns_the_reflect_Value_witness :
  ∃ bus' run,
    PublishWithReply "greet" 100 [Sample.str "world"] done_wins Sample.bus2
    = (bus', Ok run) ∧
    err run = None ∧
    reply run
    = Some (Reflected (VVal Sample.string_type (DString "hello world"))) ∧
    reply run ≠ Some (Plain Sample.string_type (DString "hello world")) ∧
    waited run = 1%N.
Proof.
  destruct (PublishWithReply_returns_the_reflect_Value
              "greet" 100 [Sample.str "world"] done_wins
              {| callBack := ValueOf Sample.greet |} Sample.bus2
              [VVal Sample.string_type (DString "world")] 1
              [VVal Sample.string_type (DString "hello world")])
    as (bus' & run & Hrun & Herr & Hreply & Hne & Hwaited & _).
  - exists (Slice (Some 1%positive) 0 1 1). vm_compute. done.
  - reflexivity.
  - reflexivity.
  - vm_compute. reflexivity.
  - exists bus', run. repeat split; try done.
    intros E. apply (Hne _ eq_refl). simpl. by rewrite E.
Defined.

(** C9.  On a topic with exactly one handler, when the goroutine started by
    PublishWithReply panics (while the arguments are set up, or in the
    call), the panic is recovered and printed in the goroutine: the call of
    PublishWithReply itself does not panic, it waits for the timer and
    returns no value and the error of kind Timeout.  The caller gets the
    very same results, after the same wait, for a handler that never comes
    back; only what is printed differs. *)
Theorem PublishWithReply_fault_is_timeout `{Callables}
    topic timeout args done_first h bus :
  sole_handler bus topic h →
  (∃ after p, outcome (doPublish (Some h) topic args) = Panics after p) ∨
  outcome (doPublish (Some h) topic args) = Blocks →
  ∃ bus' run,
    PublishWithReply topic timeout args done_first bus = (bus', Ok run) ∧
    reply run = None ∧
    err run = Some (HandlerTimeout topic) ∧
    error_kind (HandlerTimeout topic) = Timeout ∧
    waited run = Z.to_N timeout ∧
    printed run = match outcome (doPublish (Some h) topic args) with
                  | Panics _ p => [p]
                  | _ => []
                  end.
Proof.
  intros Hsole Hfault.
  rewrite (PublishWithReply_one _ _ _ _ h) by done.
  rewrite doPublish_handler in Hfault |- *.
  eexists _, _. split; [done|].
  unfold await.
  destruct (setUpPublish (Some h) args) as [passed|p']; simpl in *.
  - destruct Hfault as [(after & p & ->)| ->]; simpl; by repeat split.
  - by repeat split.
Qed.

Lemma PublishWithReply_fault_is_timeout_witness :
  let bus := exec_all [OSubscribe "fail" Sample.broken] Sample.bus2 in
  ∃ bus' run,
    PublishWithReply "fail" 100 [Sample.str "x"] done_wins bus = (bus', Ok run) ∧
    reply run = None ∧
    err run = Some (HandlerTimeout "fail") ∧
    waited run = 100%N ∧
    printed run = [UserPanic "boom"].
Proof.
  intros bus.
  destruct (PublishWithReply_fault_is_timeout "fail" 100 [Sample.str "x"] done_wins
              {| callBack := ValueOf Sample.broken |} bus)
    as (bus' & run & Hrun & Hreply & Herr & _ & Hwaited & Hprinted).
  - exists (Slice (Some 5%positive) 0 1 1). vm_compute. done.
  - left. exists 2%N, (UserPanic "boom"). reflexivity.
  - exists bus', run. done.
Defined.

(** ** The arguments passed to a handler *)

(** C8.  Whenever a goroutine of Publish (doPublish) or the goroutine of
    PublishWithReply gets as far as calling its handler, the call is made
    on the callable of that handler with as many arguments as were
    published, argument [i] taken from position [i]: the zero value of the
    type of parameter [i] where the published argument is nil, the
    published value itself otherwise. *)
Theorem arguments_are_positional `{Callables}
    handler topic args m copyHandlers f passedArguments :
  called (doPublish handler topic args) = Some (f, passedArguments) ∨
  (index_get m copyHandlers 0 = Ok handler ∧
   called (reply_body m copyHandlers args) = Some (f, passedArguments)) →
  ∃ h funcType,
    handler = Some h ∧ f = callBack h ∧ Type_ f = Ok funcType ∧
    length passedArguments = length args ∧
    ∀ i v, args !! i = Some v →
      match v with
      | INil => ∃ t, ins_of funcType !! i = Some t ∧
                     passedArguments !! i = Some (Zero t)
      | IVal t d => passedArguments !! i = Some (VVal t d)
      end.
Proof.
  intros Hcalled.
  assert (∃ h, handler = Some h ∧
               setUpPublish (Some h) args = Ok passedArguments ∧
               f = callBack h) as (h & -> & Hset & ->).
  { destruct Hcalled as [Hc|[Hidx Hc]].
    - destruct handler as [h|]; [|done].
      rewrite doPublish_handler in Hc.
      destruct (setUpPublish (Some h) args) eqn:E; simplify_eq/=. eauto.
    - unfold index_get in Hidx.
      destruct (elems m copyHandlers) as [|p hs] eqn:Hel; simplify_eq/=.
      destruct handler as [h|].
      + rewrite (reply_body_handler _ _ _ h hs) in Hc by done.
        destruct (setUpPublish (Some h) args) eqn:E; simplify_eq/=. eauto.
      + unfold reply_body, index_get in Hc. rewrite Hel in Hc. done. }
  unfold setUpPublish in Hset. simpl in Hset.
  destruct (Type_ (callBack h)) as [funcType|] eqn:Hty; simpl in Hset; [|done].
  exists h, funcType. split; [done|]. split; [done|]. split; [done|].
  destruct (setUpPublish_loop_ok _ _ _ _ Hset) as [Hlen Hall].
  split; [done|]. intros i v Hv. specialize (Hall i v Hv).
  destruct v as [|t d]; [|done].
  destruct Hall as (t & Hin & Hp). exists t. split; [|done].
  unfold In in Hin. case_decide; [|done]. simpl in Hin.
  destruct (ins_of funcType !! i); by simplify_eq/=.
Qed.

Lemma arguments_are_positional_witness :
  let handler := Some {| callBack := ValueOf Sample.logf |} in
  let args := [INil; Sample.str "x"] in
  let passedArguments := [Zero Sample.int_type; ValueOf (Sample.str "x")] in
  called (doPublish handler "log" args)
  = Some (ValueOf Sample.logf, passedArguments) ∧
  ∃ h funcType,
    handler = Some h ∧ ValueOf Sample.logf = callBack h ∧
    Type_ (ValueOf Sample.logf) = Ok funcType ∧
    length passedArguments = length args ∧
    ∀ i v, args !! i = Some v →
      match v with
      | INil => ∃ t, ins_of funcType !! i = Some t ∧
                     passedArguments !! i = Some (Zero t)
      | IVal t d => passedArguments !! i = Some (VVal t d)
      end.
Proof.
  intros handler args passedArguments. split; [reflexivity|].
  apply (arguments_are_positional handler "log" args ∅ nil_slice).
  left. reflexivity.
Defined.

(** C10.  For a handler made from a function, setUpPublish returns normally
    when every nil argument stands at a position below the number of the
    declared parameters of the function; when some nil argument stands at a
    position that is not, the look-up of the parameter type panics with an
    index out of range, and neither a goroutine of Publish nor the one of
    PublishWithReply calls the handler. *)
Theorem setUpPublish_nil_out_of_range `{Callables} h funcType args :
  Type_ (callBack h) = Ok funcType →
  kind_of funcType = Func →
  ((∀ i, args !! i = Some INil → (i < length (ins_of funcType))%nat) →
   ∃ passedArguments, setUpPublish (Some h) args = Ok passedArguments) ∧
  (∀ i, args !! i = Some INil → (length (ins_of funcType) ≤ i)%nat →
   (∃ k, setUpPublish (Some h) args
         = Panic (IndexOutOfRange k (length (ins_of funcType)))) ∧
   (∀ topic, called (doPublish (Some h) topic args) = None) ∧
   (∀ m copyHandlers hs, elems m copyHandlers = Some h :: hs →
      called (reply_body m copyHandlers args) = None)).
Proof.
  intros Hty Hk. unfold setUpPublish. simpl. rewrite Hty. simpl. split.
  - intros Hnil. apply setUpPublish_loop_total; [done|]. intros j Hj. by apply Hnil.
  - intros i Hi Hle.
    destruct (setUpPublish_loop_panic funcType 0 args i Hk Hi) as [k Hp]; [lia|].
    split; [eauto|]. split.
    + intros topic. rewrite doPublish_handler. unfold setUpPublish. simpl.
      by rewrite Hty; simpl; rewrite Hp.
    + intros m c hs Hel. rewrite (reply_body_handler _ _ _ h hs) by done.
      unfold setUpPublish. simpl. by rewrite Hty; simpl; rewrite Hp.
Qed.

Lemma setUpPublish_nil_out_of_range_witness :
  (∃ passedArguments,
     setUpPublish (Some {| callBack := ValueOf Sample.logf |})
       [INil; INil] = Ok passedArguments) ∧
  (∃ k, setUpPublish (Some {| callBack := ValueOf Sample.logf |})
          [INil; Sample.str "a"; INil] = Panic (IndexOutOfRange k 2)) ∧
  called (doPublish (Some {| callBack := ValueOf Sample.logf |}) "log"
            [INil; Sample.str "a"; INil]) = None.
Proof.
  split.
  - destruct (setUpPublish_nil_out_of_range
                {| callBack := ValueOf Sample.logf |} Sample.variadic_type
                [INil; INil] eq_refl eq_refl) as [Htotal _].
    apply Htotal. intros [|[|i]] Hi; simpl in *; (lia || discriminate).
  - destruct (setUpPublish_nil_out_of_range
                {| callBack := ValueOf Sample.logf |} Sample.variadic_type
                [INil; Sample.str "a"; INil] eq_refl eq_refl) as [_ Hpanic].
    destruct (Hpanic 2%nat eq_refl) as (Hk & Hdo & _); [simpl; lia|].
    split; [exact Hk|apply Hdo].
Defined.

(** ** The registry *)

Lemma reachable_registered `{Runtime} `{Callables} bus topic :
  reachable bus →
  (0 < length (registered bus topic))%nat →
  ∃ s, handlers bus !! topic = Some s ∧ (0 < len s)%nat ∧
       registered bus topic = elems (mem bus) s.
Proof.
  intros Hwf%reachable_wf Hlen. unfold registered in *.
  destruct (handlers bus !! topic) as [s|] eqn:Hs; [|simpl in Hlen; lia].
  exists s. rewrite (wf_slice_length _ _ (wf_slices _ Hwf _ _ Hs)) in Hlen.
  done.
Qed.

(** C3.  In a bus made by New and used through its methods, a topic that is
    a key of the map is still a key after any further calls (Subscribe,
    Unsubscribe, HasCallback, Publish, PublishWithReply), whatever has
    become of its handlers; and HasCallback returns true exactly when the
    topic is a key of the map and its slice is not empty. *)
Theorem topic_keys_are_kept `{Runtime} `{Callables} bus ops topic :
  reachable bus →
  (topic ∈ dom (handlers bus) → topic ∈ dom (handlers (exec_all ops bus))) ∧
  ∃ b, HasCallback topic bus = (bus, Ok b) ∧
       (b = true ↔ ∃ s, handlers bus !! topic = Some s ∧ (0 < len s)%nat) ∧
       (b = true ↔ topic ∈ dom (handlers bus) ∧ registered bus topic ≠ []).
Proof.
  intros Hwf%reachable_wf. split.
  - destruct (exec_all_step ops bus Hwf) as (_ & Hdom & _). set_solver.
  - unfold HasCallback, bind, ret, map_get, registered.
    destruct (handlers bus !! topic) as [s|] eqn:Hs; simpl.
    + rewrite Hs. simpl. eexists. split; [done|].
      rewrite bool_decide_eq_true.
      pose proof (wf_slice_length _ _ (wf_slices _ Hwf _ _ Hs)) as Hlen.
      split.
      * split; [by eauto|]. by intros (s' & [= <-] & ?).
      * rewrite elem_of_dom, Hs. split.
        -- intros Hpos. split; [by eauto|].
           intros Hnil. rewrite Hnil in Hlen. simpl in Hlen. lia.
        -- intros [_ Hne]. destruct (elems (mem bus) s); [done|].
           simpl in Hlen. lia.
    + exists false. split; [done|]. split.
      * split; [done|]. by intros (s' & ? & ?).
      * split; [done|]. by intros [_ ?].
Qed.

Lemma topic_keys_are_kept_witness :
  let bus := exec_all [OSubscribe "greet" Sample.greet;
                       OUnsubscribe "greet" Sample.greet] New in
  let ops := [OUnsubscribe "greet" Sample.greet; OPublish "greet" [];
              OHasCallback "greet"] in
  registered bus "greet" = [] ∧
  ("greet" ∈ dom (handlers bus) →
   "greet" ∈ dom (handlers (exec_all ops bus))) ∧
  ∃ b, HasCallback "greet" bus = (bus, Ok b) ∧
       (b = true ↔ ∃ s, handlers bus !! "greet" = Some s ∧ (0 < len s)%nat) ∧
       (b = true ↔ "greet" ∈ dom (handlers bus) ∧ registered bus "greet" ≠ []).
Proof.
  intros bus ops. split; [reflexivity|].
  apply (topic_keys_are_kept bus ops "greet").
  exists [OSubscribe "greet" Sample.greet; OUnsubscribe "greet" Sample.greet].
  reflexivity.
Defined.

(** C4.  Subscribe with the nil interface, which is not a function: the
    kind of its type cannot be asked for, and the call panics with a nil
    dereference instead of returning the error that a value which is not a
    function gets.  The bus is left as it was. *)
Theorem Subscribe_nil_panics `{Runtime} topic bus :
  Kind_ (TypeOf INil) = Panic NilDereference ∧
  Subscribe topic INil bus = (bus, Panic NilDereference) ∧
  Subscribe topic (IVal Sample.int_type (DInt 7)) bus
  = (bus, Ok (Some (NotFunc Int))).
Proof. done. Qed.

(** What Subscribe does with a value that is not nil: the error of kind
    NotInvocable and an unchanged bus when the value is not a function, one
    more handler at the end of the handlers of the topic otherwise. *)
Lemma Subscribe_typed `{Runtime} `{Callables} bus topic t d :
  reachable bus →
  ∃ bus' e, Subscribe topic (IVal t d) bus = (bus', Ok e) ∧
    (e ≠ None ↔ kind_of t ≠ Func) ∧
    (kind_of t ≠ Func →
       e = Some (NotFunc (kind_of t)) ∧
       error_kind (NotFunc (kind_of t)) = NotInvocable ∧ bus' = bus) ∧
    (kind_of t = Func →
       e = None ∧
       registered bus' topic
         = registered bus topic ++ [Some {| callBack := VVal t d |}] ∧
       ∀ t', t' ≠ topic → registered bus' t' = registered bus t').
Proof.
  intros Hwf%reachable_wf.
  destruct (decide (kind_of t = Func)) as [Hk|Hk].
  - destruct (Subscribe_func topic t d bus Hk Hwf)
      as (bus' & -> & _ & _ & Hreg & Hoth & _).
    exists bus', None. split; [done|]. split; [done|]. split; [done|].
    intros _. split; [done|]. split; [done|]. intros t' Hne.
    by destruct (Hoth t' Hne).
  - rewrite Subscribe_not_func by done. eexists _, _. split; [done|].
    split; [done|]. split; [done|]. done.
Qed.

Lemma identity_match_zero p : identity_match VZero p = false.
Proof. by destruct p as [[[|??]]|]. Qed.

(** The first match of a list, as a split of the list. *)
Lemma list_find_split (callback : Value) (hs : list handler_ptr) :
  match list_find (λ p, identity_match callback p = true) hs with
  | Some (j, p) =>
      ∃ pre post, hs = pre ++ p :: post ∧ length pre = j ∧
        identity_match callback p = true ∧
        Forall (λ q, identity_match callback q ≠ true) pre ∧
        delete j hs = pre ++ post
  | None => Forall (λ q, identity_match callback q ≠ true) hs
  end.
Proof.
  destruct (list_find _ hs) as [[j p]|] eqn:Hfind.
  - apply list_find_Some in Hfind as (Hj & Hp & Hbefore).
    exists (take j hs), (drop (S j) hs).
    split; [by rewrite take_drop_middle|].
    split; [apply length_take_le; apply lookup_lt_Some in Hj; lia|].
    split; [done|]. split; [|apply delete_take_drop].
    apply Forall_lookup. intros i q Hq.
    apply lookup_take_Some in Hq as [Hq Hi]. by apply (Hbefore i).
  - by apply list_find_None in Hfind.
Qed.

(** What Unsubscribe returns for a reference that is not nil: the error of
    kind UnknownTopic exactly when the topic is not a key of the map or its
    slice is empty, no error in every other case; when no handler of the
    topic matches the reference, the bus is left as it was. *)
Lemma Unsubscribe_result `{Runtime} `{Callables} bus topic r :
  reachable bus →
  r ≠ INil →
  ∃ bus' e, Unsubscribe topic r bus = (bus', Ok e) ∧
    (e = Some (TopicNotExist topic) ↔
       handlers bus !! topic = None ∨
       ∃ s, handlers bus !! topic = Some s ∧ len s = 0%nat) ∧
    (e = None ↔ ∃ s, handlers bus !! topic = Some s ∧ (0 < len s)%nat) ∧
    error_kind (TopicNotExist topic) = UnknownTopic ∧
    (Forall (λ p, identity_match (ValueOf r) p ≠ true) (registered bus topic) →
     bus' = bus).
Proof.
  intros Hwf%reachable_wf Hr. destruct r as [|t d]; [done|].
  destruct (handlers bus !! topic) as [s|] eqn:Hs.
  - destruct (decide (0 < len s)%nat) as [Hlen|Hlen].
    + destruct (Unsubscribe_found topic t d s bus Hwf Hs Hlen)
        as (bus' & -> & _ & _ & Hfind & _).
      exists bus', None. split; [done|]. split; [|split; [|split; [done|]]].
      * split; [done|]. intros [?|(s' & [= <-] & ?)]; [done|lia].
      * split; [by eauto|done].
      * intros Hno. simpl in Hno.
        destruct (list_find _ _) as [[j p]|] eqn:Hf; [|done].
        apply list_find_Some in Hf as (Hj & Hp & _).
        rewrite Forall_lookup in Hno. by destruct (Hno j p Hj).
    + rewrite Unsubscribe_unknown by (intros ? ?; simplify_eq; lia).
      eexists _, _. split; [done|]. split; [|split; [|done]].
      * split; [|done]. intros _. right. exists s. split; [done|lia].
      * split; [done|]. intros (s' & [= <-] & ?). lia.
  - rewrite Unsubscribe_unknown by congruence.
    eexists _, _. split; [done|]. split; [|split; [|done]].
    * split; [by left|done].
    * split; [done|]. by intros (s' & ? & ?).
Qed.

(** C5.  Unsubscribe with a nil reference on a topic that has handlers
    returns neither an error nor success: it panics when findHandlerIdx asks
    the zero Value for its type, in the first comparison of its loop.  The
    bus is left as it was. *)
Theorem Unsubscribe_nil_panics `{Runtime} `{Callables} bus topic :
  reachable bus →
  (0 < length (registered bus topic))%nat →
  ValueOf INil = VZero ∧
  Type_ VZero = Panic ValueErrorType ∧
  Unsubscribe topic INil bus = (bus, Panic ValueErrorType).
Proof.
  intros Hreach Hlen. split; [done|]. split; [done|].
  destruct (reachable_registered bus topic Hreach Hlen) as (s & Hs & Hpos & Hreg).
  pose proof (reachable_wf _ Hreach) as Hwf.
  unfold Unsubscribe, findHandlerIdx, bind, ret, lift, map_get, range. simpl.
  rewrite Hs. simpl. rewrite bool_decide_eq_true_2 by done. simpl.
  rewrite Hs. simpl. rewrite Hs. simpl.
  pose proof (wf_funcs _ Hwf _ _ Hs) as Hf.
  rewrite <- Hreg in *.
  destruct (registered bus topic) as [|p hs]; simpl in Hlen; [lia|].
  apply Forall_cons_1 in Hf as [(t & d & -> & _) _]. done.
Qed.

Lemma Unsubscribe_nil_panics_witness :
  (0 < length (registered Sample.bus2 "greet"))%nat ∧
  Unsubscribe "greet" INil Sample.bus2 = (Sample.bus2, Panic ValueErrorType).
Proof.
  split; [vm_compute; lia|].
  apply (Unsubscribe_nil_panics Sample.bus2 "greet").
  - eexists. reflexivity.
  - vm_compute. lia.
Defined.

(** C6.  On a topic that has handlers, Unsubscribe removes the first
    handler, in the order of the slice, whose type is the type of the
    reference and whose entry point is the pointer of the reference,
    whatever the closure of either; the handlers before and after it stay,
    in their order.  When no handler matches, the bus is left as it was.
    The handlers of the other topics are those they were. *)
Theorem Unsubscribe_removes_first_match `{Runtime} `{Callables} bus topic r :
  reachable bus →
  (0 < length (registered bus topic))%nat →
  let bus' := (Unsubscribe topic r bus).1 in
  let matches p := identity_match (ValueOf r) p = true in
  ((∃ pre p post,
      registered bus topic = pre ++ p :: post ∧
      matches p ∧ Forall (λ q, ¬ matches q) pre ∧
      registered bus' topic = pre ++ post) ∨
   (Forall (λ q, ¬ matches q) (registered bus topic) ∧ bus' = bus)) ∧
  ∀ t', t' ≠ topic → registered bus' t' = registered bus t'.
Proof.
  intros Hreach Hlen bus' matches.
  destruct (reachable_registered bus topic Hreach Hlen) as (s & Hs & Hpos & _).
  pose proof (reachable_wf _ Hreach) as Hwf.
  destruct r as [|t d].
  - subst bus'. rewrite (Unsubscribe_nil topic s) by done. simpl.
    split; [|done]. right. split; [|done].
    apply Forall_forall. intros q _. unfold matches. simpl.
    by rewrite identity_match_zero.
  - destruct (Unsubscribe_found topic t d s bus Hwf Hs Hpos)
      as (bus1 & Heq & _ & _ & Hfind & Hoth & _).
    subst bus'. rewrite Heq. simpl. split.
    + pose proof (list_find_split (VVal t d) (registered bus topic)) as Hsplit.
      destruct (list_find _ _) as [[j p]|].
      * destruct Hsplit as (pre & post & Hl & _ & Hp & Hpre & Hdel).
        left. exists pre, p, post. rewrite Hfind, Hdel. done.
      * right. done.
    + intros t' Hne. by destruct (Hoth t' Hne).
Qed.

Lemma Unsubscribe_removes_first_match_witness :
  let bus' := (Unsubscribe "log" Sample.greet' Sample.bus2).1 in
  let matches p := identity_match (ValueOf Sample.greet') p = true in
  ((∃ pre p post,
      registered Sample.bus2 "log" = pre ++ p :: post ∧
      matches p ∧ Forall (λ q, ¬ matches q) pre ∧
      registered bus' "log" = pre ++ post) ∨
   (Forall (λ q, ¬ matches q) (registered Sample.bus2 "log") ∧
    bus' = Sample.bus2)) ∧
  ∀ t', t' ≠ "log" → registered bus' t' = registered Sample.bus2 t'.
Proof.
  apply (Unsubscribe_removes_first_match Sample.bus2 "log" Sample.greet').
  - eexists. reflexivity.
  - vm_compute. lia.
Defined.

(** The match is on the function, not on the closure: a reference to one
    closure of a function literal removes the handler made from another
    closure of it that was subscribed first. *)
Example Unsubscribe_ignores_the_closure :
  registered Sample.bus2 "log"
  = [Some {| callBack := ValueOf Sample.logf |};
     Some {| callBack := ValueOf Sample.greet |};
     Some {| callBack := ValueOf Sample.greet' |}] ∧
  registered (exec (OUnsubscribe "log" Sample.greet') Sample.bus2) "log"
  = [Some {| callBack := ValueOf Sample.logf |};
     Some {| callBack := ValueOf Sample.greet' |}].
Proof. split; reflexivity. Qed.

(** ** Publish *)

(** C7.  Publish on a topic with N ≥ 1 handlers starts one goroutine for
    each handler registered when it is called, in the order of registration:
    N tasks, the i-th with the i-th handler, the topic and the arguments of
    the call as its operands.  When it runs, the i-th task is [doPublish] on
    that handler: it sets up the arguments and, if that succeeds, calls the
    function of the handler with them, once.  Publish gives back nothing of
    what the handlers do, and it leaves the map and the handlers of every
    topic as they were.  The loop runs over a copy of the slice: whatever
    calls other goroutines make on the bus between its iterations
    (Subscribe and Unsubscribe among them), the tasks started are the
    same. *)
Theorem Publish_starts_each_handler_once `{Runtime} `{Callables}
    bus topic args :
  reachable bus →
  (0 < length (registered bus topic))%nat →
  ∃ bus1 tasks,
    Publish topic args bus = (bus1, Ok tasks) ∧
    length tasks = length (registered bus topic) ∧
    task_handler <$> tasks = registered bus topic ∧
    Forall (λ task, task_topic task = topic ∧ task_args task = args) tasks ∧
    (∀ i task, tasks !! i = Some task →
       ∃ h, registered bus topic !! i = Some (Some h) ∧
            run_task task = doPublish (Some h) topic args ∧
            ∀ passedArguments,
              setUpPublish (Some h) args = Ok passedArguments →
              run_task task
              = {| called := Some (callBack h, passedArguments);
                   outcome := Call (callBack h) passedArguments |}) ∧
    handlers bus1 = handlers bus ∧
    (∀ t, registered bus1 t = registered bus t) ∧
    ∀ schedule : nat → list op,
      (Publish_among (λ i, exec_all (schedule i)) topic args bus).2 = Ok tasks.
Proof.
  intros Hreach Hlen.
  destruct (reachable_registered bus topic Hreach Hlen) as (s & Hs & Hpos & Hreg).
  pose proof (reachable_wf _ Hreach) as Hwf.
  destruct (Publish_some topic args s bus Hwf Hs Hpos) as (Hpub & Hpriv).
  set (a := fresh (dom (mem bus))) in *.
  set (bus1 := {| handlers := handlers bus;
                  mem := <[a := elems (mem bus) s]> (mem bus) |}) in *.
  destruct (alloc_step bus (elems (mem bus) s) Hwf) as (Hwf1 & Hsame & _).
  fold a in Hwf1, Hsame. fold bus1 in Hwf1, Hsame.
  exists bus1, (go_doPublish topic args <$> registered bus topic).
  split; [done|]. split; [by rewrite length_fmap|]. split.
  { rewrite <- list_fmap_compose. apply list_fmap_id. }
  split.
  { apply Forall_fmap, Forall_true. done. }
  split.
  { intros i task Hi. apply list_lookup_fmap_Some in Hi as (p & -> & Hp).
    assert (is_func_handler p) as (t & d & -> & Hk).
    { pose proof (wf_funcs _ Hwf _ _ Hs) as Hf. rewrite Forall_forall in Hf.
      apply Hf. rewrite <- Hreg. by eapply list_elem_of_lookup_2. }
    eexists. split; [done|]. split; [done|].
    intros passedArguments Hset. unfold run_task. simpl.
    by rewrite doPublish_handler, Hset. }
  split; [done|]. split; [done|].
  intros schedule.
  set (I := λ b, wf_bus b ∧ private b a ∧
                 mem b !! a = Some (elems (mem bus) s)).
  assert (Hothers : ∀ i b, I b → I (exec_all (schedule i) b)).
  { intros i b (Hwfb & Hprivb & Hmemb).
    destruct (exec_all_step (schedule i) b Hwfb) as (Hwf' & _ & Hframe).
    destruct (Hframe a Hprivb) as [Hpriv' Hmem']. split; [done|].
    split; [done|congruence]. }
  assert (HI : I bus1).
  { split; [done|]. split; [done|]. simpl. by rewrite lookup_insert_eq. }
  destruct (Publish_among_some I (λ i, exec_all (schedule i)) topic args
              s bus Hwf Hs Hpos Hothers) as (bus2 & -> & _); [|done..].
  by intros b (_ & _ & Hmemb).
Qed.

Lemma Publish_starts_each_handler_once_witness :
  ∃ bus1 tasks,
    Publish "log" [Sample.str "x"] Sample.bus2 = (bus1, Ok tasks) ∧
    length tasks = length (registered Sample.bus2 "log") ∧
    task_handler <$> tasks = registered Sample.bus2 "log" ∧
    Forall (λ task, task_topic task = "log" ∧ task_args task = [Sample.str "x"])
      tasks ∧
    (∀ i task, tasks !! i = Some task →
       ∃ h, registered Sample.bus2 "log" !! i = Some (Some h) ∧
            run_task task = doPublish (Some h) "log" [Sample.str "x"] ∧
            ∀ passedArguments,
              setUpPublish (Some h) [Sample.str "x"] = Ok passedArguments →
              run_task task
              = {| called := Some (callBack h, passedArguments);
                   outcome := Call (callBack h) passedArguments |}) ∧
    handlers bus1 = handlers Sample.bus2 ∧
    (∀ t, registered bus1 t = registered Sample.bus2 t) ∧
    ∀ schedule : nat → list op,
      (Publish_among (λ i, exec_all (schedule i)) "log" [Sample.str "x"]
         Sample.bus2).2 = Ok tasks.
Proof.
  apply (Publish_starts_each_handler_once Sample.bus2 "log" [Sample.str "x"]).
  - eexists. reflexivity.
  - vm_compute. lia.
Defined.

(** The three handlers of the topic are started although the first of them
    is unsubscribed after the first iteration and another one is subscribed
    after the second. *)
Example Publish_among_Unsubscribe_and_Subscribe :
  let schedule (i : nat) :=
    match i with
    | 1%nat => [OUnsubscribe "log" Sample.logf]
    | 2%nat => [OSubscribe "log" Sample.greet]
    | _ => []
    end in
  task_handler <$>
    default [] (match (Publish_among (λ i, exec_all (schedule i)) "log"
                         [Sample.str "x"] Sample.bus2).2 with
                | Ok tasks => Some tasks
                | Panic _ => None
                end)
  = [Some {| callBack := ValueOf Sample.logf |};
     Some {| callBack := ValueOf Sample.greet |};
     Some {| callBack := ValueOf Sample.greet' |}].
Proof. vm_compute. reflexivity. Qed.

(** Without the copy the loop would follow the slice of the map, which
    Unsubscribe edits in place: the handlers it visits would change. *)
Lemma live_slice_is_edited_in_place :
  ∃ s, handlers Sample.bus2 !! "log" = Some s ∧
       elems (mem (exec (OUnsubscribe "log" Sample.logf) Sample.bus2)) s
       ≠ elems (mem Sample.bus2) s.
Proof. eexists. split; [reflexivity|]. vm_compute. discriminate. Qed.

(** * More on the registry *)

Section More.
Context `{Runtime} `{Callables}.

(** ** The states after Subscribe and removeHandler, written out *)

Lemma Subscribe_func_eq topic t d bus :
  kind_of t = Func →
  Subscribe topic (IVal t d) bus
  = let s := default nil_slice (handlers bus !! topic) in
    let h := Some {| callBack := VVal t d |} in
    if decide (len s < cap s)%nat then
      ({| handlers := <[topic := Slice (array s) (off s) (S (len s)) (cap s)]>
                        (handlers bus);
          mem := store_elems (mem bus) s (len s) [h] |}, Ok None)
    else
      let newcap := growslice (cap s) (S (len s)) in
      let a := fresh (dom (mem bus)) in
      ({| handlers := <[topic := Slice (Some a) 0 (S (len s)) newcap]>
                        (handlers bus);
          mem := <[a := elems (mem bus) s ++ h :: replicate (newcap - S (len s)) None]>
                   (mem bus) |}, Ok None).
Proof.
  intros Hk. unfold Subscribe, doSubscribe, bind, ret, lift, map_get, map_set.
  simpl. rewrite bool_decide_eq_true_2 by done. simpl.
  destruct (handlers bus !! topic) as [s|]; simpl.
  - unfold append. by case_decide.
  - done.
Qed.

Lemma removeHandler_eq topic (idx : nat) s bus :
  handlers bus !! topic = Some s →
  (idx < len s)%nat → (len s ≤ cap s)%nat →
  removeHandler topic (Z.of_nat idx) bus
  = ({| handlers := <[topic := Slice (array s) (off s) (len s - 1) (cap s)]>
                      (handlers bus);
        mem := store_elems
                 (store_elems (mem bus)
                    (Slice (array s) (off s + idx) (len s - idx) (cap s - idx)) 0
                    (take ((len s - idx) `min` (len s - S idx))
                       (elems (mem bus)
                          (Slice (array s) (off s + S idx) (len s - S idx)
                             (cap s - S idx)))))
                 s (len s - 1) [None] |}, Ok ()).
Proof.
  intros Hs Hidx Hcap.
  unfold removeHandler, bind, ret, lift, map_get, map_set. simpl.
  rewrite Hs. simpl. rewrite Hs. simpl.
  rewrite (bool_decide_eq_true_2 (0 ≤ Z.of_nat idx)) by lia.
  rewrite (bool_decide_eq_true_2 (Z.of_nat idx < Z.of_nat (len s))) by lia.
  simpl. unfold slice_from, slice_to.
  rewrite Nat2Z.id.
  replace (Z.to_nat (Z.of_nat idx + 1)) with (S idx) by lia.
  rewrite !decide_True by lia. simpl.
  unfold index_set. rewrite decide_True by lia. simpl. done.
Qed.

(** The backing array after removeHandler. *)
Lemma removeHandler_backing (m : store) (s : slice) (idx : nat) a arr :
  array s = Some a → m !! a = Some arr → off s = 0%nat →
  backing
    (store_elems
       (store_elems m
          (Slice (array s) (off s + idx) (len s - idx) (cap s - idx)) 0
          (take ((len s - idx) `min` (len s - S idx))
             (elems m (Slice (array s) (off s + S idx) (len s - S idx)
                         (cap s - S idx)))))
       s (len s - 1) [None])
    (Slice (array s) (off s) (len s - 1) (cap s))
  = <[(len s - 1)%nat := None]>
      (list_inserts idx (take (len s - idx - 1) (drop (S idx) arr)) arr).
Proof.
  intros E1 E2 E4.
  rewrite (backing_store_elems_same _ _ s) by done.
  rewrite E4. simpl.
  rewrite (backing_store_elems_same _ (Slice (array s) 0 (len s - 1) (cap s)))
    by done.
  simpl. rewrite Nat.add_0_r.
  unfold elems. simpl. rewrite take_take.
  assert (Harr : ∀ x y z, backing m (Slice (array s) x y z) = arr).
  { intros. unfold backing. simpl. by rewrite E1, E2. }
  rewrite !Harr. do 3 f_equal. lia.
Qed.

(** Unsubscribe with a reference that is not nil, as a call of
    removeHandler. *)
Lemma Unsubscribe_eq topic t d s bus :
  wf_bus bus → handlers bus !! topic = Some s → (0 < len s)%nat →
  Unsubscribe topic (IVal t d) bus
  = match list_find (λ p, identity_match (VVal t d) p = true)
                    (elems (mem bus) s) with
    | Some (j, _) => ((removeHandler topic (Z.of_nat j) bus).1, Ok None)
    | None => (bus, Ok None)
    end.
Proof.
  intros Hwf Hs Hlen.
  unfold Unsubscribe, findHandlerIdx, bind, ret, lift, map_get, range. simpl.
  rewrite Hs. simpl. rewrite bool_decide_eq_true_2 by done. simpl.
  rewrite Hs. simpl. rewrite Hs. simpl.
  rewrite findHandlerIdx_loop_find by apply (wf_funcs _ Hwf _ _ Hs).
  destruct (list_find _ _) as [[j p]|] eqn:Hfind; simpl.
  - apply list_find_Some in Hfind as (Hj & _ & _).
    apply lookup_lt_Some in Hj.
    rewrite (wf_slice_length _ _ (wf_slices _ Hwf _ _ Hs)) in Hj.
    destruct (wf_slices _ Hwf _ _ Hs) as (a & arr & _ & _ & _ & _ & Hcap).
    by rewrite (removeHandler_eq topic j s).
  - by rewrite removeHandler_out_of_range by lia.
Qed.

(** ** The spare places of the arrays *)

Lemma spare_update bus topic s' m' :
  spare_slots_nil bus →
  Forall (λ p, p = None) (drop (len s') (backing m' s')) →
  (∀ t s, t ≠ topic → handlers bus !! t = Some s →
          backing m' s = backing (mem bus) s) →
  spare_slots_nil {| handlers := <[topic := s']> (handlers bus); mem := m' |}.
Proof.
  intros Hsp Hnew Hother t s. simpl. rewrite lookup_insert.
  case_decide as Hne; [by intros [= <-]|].
  intros Hs. rewrite (Hother t s) by (done || congruence). by apply (Hsp t).
Qed.

Lemma spare_alloc bus arr :
  wf_bus bus → spare_slots_nil bus →
  spare_slots_nil {| handlers := handlers bus;
                     mem := <[fresh (dom (mem bus)) := arr]> (mem bus) |}.
Proof.
  intros Hwf Hsp t s Hs. simpl in *.
  rewrite backing_insert_other; [by apply (Hsp t)|].
  by apply wf_slice_not_fresh, (wf_slices _ Hwf t).
Qed.

Lemma spare_after_append (elts : list handler_ptr) h n k :
  length elts = n →
  Forall (λ p : handler_ptr, p = None)
    (drop (S n) (elts ++ h :: replicate k None)).
Proof.
  intros <-. rewrite (cons_middle h), app_assoc.
  replace (S (length elts)) with (length (elts ++ [h]))
    by (rewrite length_app; simpl; lia).
  rewrite drop_app_length. by apply Forall_replicate.
Qed.

Lemma spare_exec o bus :
  wf_bus bus → spare_slots_nil bus → spare_slots_nil (exec o bus).
Proof.
  intros Hwf Hsp.
  destruct o as [topic fn|topic r|topic|topic args|topic timeout args d]; simpl.
  - destruct fn as [|t d]; [done|].
    destruct (decide (kind_of t = Func)) as [Hk|Hk];
      [|by rewrite Subscribe_not_func].
    rewrite Subscribe_func_eq by done.
    destruct (handlers bus !! topic) as [s|] eqn:Hs; simpl.
    + pose proof (wf_slices _ Hwf _ _ Hs) as Hws.
      destruct Hws as (a & arr & E1 & E2 & E3 & E4 & E5).
      case_decide as Hcap; simpl; apply spare_update; simpl; try done.
      * rewrite (backing_store_elems_same _ _ s) by done.
        rewrite E4. simpl. rewrite drop_insert_lt by lia.
        replace (S (len s)) with (len s + 1)%nat by lia.
        rewrite <- drop_drop. apply Forall_drop. exact (Hsp topic s Hs).
      * intros t' s' Hne Hs'. apply backing_store_elems_other.
        by apply (wf_apart _ Hwf t' topic).
      * rewrite backing_insert_same by done.
        apply spare_after_append, wf_slice_length. by exists a, arr.
      * intros t' s' Hne Hs'. apply backing_insert_other.
        by apply wf_slice_not_fresh, (wf_slices _ Hwf t').
    + apply spare_update; simpl; try done.
      * rewrite backing_insert_same by done.
        by apply (spare_after_append []).
      * intros t' s' Hne Hs'. apply backing_insert_other.
        by apply wf_slice_not_fresh, (wf_slices _ Hwf t').
  - destruct (handlers bus !! topic) as [s|] eqn:Hs;
      [|by rewrite Unsubscribe_unknown by congruence].
    destruct (decide (0 < len s)%nat) as [Hlen|Hlen];
      [|by rewrite Unsubscribe_unknown by (intros ? ?; simplify_eq; lia)].
    destruct r as [|t d]; [by rewrite (Unsubscribe_nil topic s)|].
    rewrite (Unsubscribe_eq topic t d s) by done.
    destruct (list_find _ _) as [[j p]|] eqn:Hfind; [|done]. simpl.
    apply list_find_Some in Hfind as (Hj & _ & _).
    apply lookup_lt_Some in Hj.
    rewrite (wf_slice_length _ _ (wf_slices _ Hwf _ _ Hs)) in Hj.
    destruct (wf_slices _ Hwf _ _ Hs) as (a & arr & E1 & E2 & E3 & E4 & E5).
    rewrite (removeHandler_eq topic j s) by done. simpl.
    apply spare_update; [done| |].
    + rewrite (removeHandler_backing _ _ _ a arr) by done. simpl.
      pose proof (Hsp _ _ Hs) as Hold.
      unfold backing in Hold. rewrite E1, E2 in Hold. simpl in Hold.
      rewrite Forall_lookup in Hold |- *. intros i q.
      rewrite lookup_drop.
      destruct i as [|i].
      * rewrite Nat.add_0_r, list_lookup_insert_eq; [congruence|].
        rewrite length_inserts. lia.
      * rewrite list_lookup_insert_ne by lia.
        rewrite list_lookup_inserts_ge
          by (rewrite length_take, length_drop; lia).
        intros Hq. apply (Hold i q). rewrite lookup_drop. rewrite <- Hq.
        f_equal. lia.
    + intros t' s' Hne Hs'.
      assert (array s' ≠ array s) by by apply (wf_apart _ Hwf t' topic).
      rewrite backing_store_elems_other by done.
      by apply backing_store_elems_other.
  - unfold HasCallback, bind, ret, map_get.
    destruct (handlers bus !! topic) as [s|] eqn:Hs; simpl; [|done].
    by rewrite Hs.
  - destruct (handlers bus !! topic) as [s|] eqn:Hs;
      [|by rewrite Publish_none by congruence].
    destruct (decide (0 < len s)%nat) as [Hlen|Hlen];
      [|by rewrite Publish_none by (intros ? ?; simplify_eq; lia)].
    destruct (Publish_some topic args s bus Hwf Hs Hlen) as (-> & _).
    by apply spare_alloc.
  - destruct (handlers bus !! topic) as [s|] eqn:Hs;
      [|by rewrite PublishWithReply_unknown].
    destruct (decide (len s = 1%nat)) as [Hlen|Hlen];
      [|by rewrite (PublishWithReply_count _ _ _ _ s)].
    pose proof (wf_slice_length _ _ (wf_slices _ Hwf _ _ Hs)) as Hl.
    pose proof (wf_funcs _ Hwf _ _ Hs) as Hf.
    destruct (elems (mem bus) s) as [|p [|??]] eqn:Hel; simpl in Hl; try lia.
    apply Forall_cons_1 in Hf as [(t & d' & -> & _) _].
    rewrite (PublishWithReply_one topic timeout args d
               {| callBack := VVal t d' |}) by (by exists s).
    by apply spare_alloc.
Qed.

Lemma spare_exec_all ops bus :
  wf_bus bus → spare_slots_nil bus → spare_slots_nil (exec_all ops bus).
Proof.
  revert bus. induction ops as [|o ops IH]; intros bus Hwf Hsp; simpl; [done|].
  apply IH; [|by apply spare_exec]. by destruct (exec_step o bus Hwf).
Qed.

End More.

(** * Further properties of the bus *)

(** ** Topics without handlers *)

(** X1.  On a topic that is not a key of the map, or whose slice is empty,
    no call panics or changes the bus: HasCallback says false, Publish
    starts nothing, Unsubscribe returns its error for every reference (the
    nil reference included: findHandlerIdx is not reached), findHandlerIdx
    returns -1 for every callback (the zero Value included) and
    removeHandler does nothing for every index. *)
Theorem topic_without_handlers bus topic args :
  (∀ s, handlers bus !! topic = Some s → len s = 0%nat) →
  HasCallback topic bus = (bus, Ok false) ∧
  Publish topic args bus = (bus, Ok []) ∧
  (∀ r, Unsubscribe topic r bus = (bus, Ok (Some (TopicNotExist topic)))) ∧
  (∀ callback, findHandlerIdx topic callback bus = (bus, Ok (-1))) ∧
  (∀ idx, removeHandler topic idx bus = (bus, Ok ())).
Proof.
  intros Hempty. split; [|split; [|split; [|split]]].
  - unfold HasCallback, bind, ret, map_get.
    destruct (handlers bus !! topic) as [s|] eqn:Hs; simpl; [|done].
    rewrite Hs. simpl. by rewrite (Hempty s eq_refl).
  - by apply Publish_none.
  - intros r. by apply Unsubscribe_unknown.
  - intros callback. unfold findHandlerIdx, bind, ret, lift, map_get, range.
    destruct (handlers bus !! topic) as [s|] eqn:Hs; simpl; [|done].
    rewrite Hs. simpl. unfold elems. by rewrite (Hempty s eq_refl).
  - intros idx. unfold removeHandler, bind, ret, map_get.
    destruct (handlers bus !! topic) as [s|] eqn:Hs; simpl; [|done].
    rewrite Hs. simpl. rewrite (Hempty s eq_refl). simpl.
    destruct (bool_decide (0 ≤ idx)) eqn:H0; simpl; [|done].
    apply bool_decide_eq_true in H0.
    by rewrite bool_decide_eq_false_2 by lia.
Qed.

Lemma topic_without_handlers_witness :
  let bus := exec_all [OSubscribe "greet" Sample.greet;
                       OUnsubscribe "greet" Sample.greet] New in
  "greet" ∈ dom (handlers bus) ∧
  HasCallback "greet" bus = (bus, Ok false) ∧
  Publish "greet" [INil] bus = (bus, Ok []) ∧
  (∀ r, Unsubscribe "greet" r bus = (bus, Ok (Some (TopicNotExist "greet")))) ∧
  (∀ callback, findHandlerIdx "greet" callback bus = (bus, Ok (-1))) ∧
  (∀ idx, removeHandler "greet" idx bus = (bus, Ok ())).
Proof.
  intros bus. split; [by vm_compute|].
  apply (topic_without_handlers bus "greet" [INil]).
  intros s Hs. vm_compute in Hs. by injection Hs as <-.
Defined.

(** ** Subscribe and Unsubscribe *)

Lemma identity_match_self t d :
  kind_of t = Func →
  identity_match (VVal t d) (Some {| callBack := VVal t d |}) = true.
Proof.
  intros Hk. unfold identity_match, Pointer. rewrite Hk.
  by rewrite !bool_decide_eq_true_2.
Qed.

(** X4.  Subscribe of a function followed by Unsubscribe with the same
    function leaves the topic with as many handlers as it had, and a key of
    the map; when no handler of the topic matched the function before, the
    handlers are those there were, in their order.  The other topics keep
    their handlers. *)
Theorem Subscribe_then_Unsubscribe `{Runtime} `{Callables} bus topic t d :
  reachable bus →
  kind_of t = Func →
  let bus2 := exec_all [OSubscribe topic (IVal t d);
                        OUnsubscribe topic (IVal t d)] bus in
  length (registered bus2 topic) = length (registered bus topic) ∧
  topic ∈ dom (handlers bus2) ∧
  (Forall (λ p, identity_match (VVal t d) p ≠ true) (registered bus topic) →
   registered bus2 topic = registered bus topic) ∧
  ∀ t', t' ≠ topic → registered bus2 t' = registered bus t'.
Proof.
  intros Hwf%reachable_wf Hk bus2. subst bus2. simpl.
  destruct (Subscribe_func topic t d bus Hk Hwf)
    as (bus1 & -> & Hwf1 & Hdom1 & Hreg1 & Hoth1 & _). simpl.
  assert (topic ∈ dom (handlers bus1)) as Hin
    by (rewrite Hdom1; by apply elem_of_union_l, elem_of_singleton).
  apply elem_of_dom in Hin as [s1 Hs1].
  pose proof (wf_slice_length _ _ (wf_slices _ Hwf1 _ _ Hs1)) as Hlen1.
  assert (registered bus1 topic = elems (mem bus1) s1) as Hr1
    by (unfold registered; by rewrite Hs1).
  assert (0 < len s1)%nat as Hpos.
  { rewrite <- Hlen1, <- Hr1, Hreg1, length_app. simpl. lia. }
  destruct (Unsubscribe_found topic t d s1 bus1 Hwf1 Hs1 Hpos)
    as (bus2 & -> & Hwf2 & Hdom2 & Hfind & Hoth2 & _). simpl.
  set (h := Some {| callBack := VVal t d |}) in *.
  destruct (list_find _ (registered bus1 topic)) as [[j p]|] eqn:Hf.
  - apply list_find_Some in Hf as (Hj & Hp & Hbefore).
    rewrite Hfind, Hreg1. split; [|split; [|split]].
    + rewrite length_delete by (rewrite <- Hreg1; eauto).
      rewrite length_app. simpl. lia.
    + rewrite Hdom2. apply elem_of_dom. eauto.
    + intros Hno. rewrite Hreg1 in Hj.
      assert (j = length (registered bus topic)) as ->.
      { destruct (decide (j < length (registered bus topic))%nat) as [Hlt|Hge].
        - rewrite lookup_app_l in Hj by done.
          rewrite Forall_lookup in Hno. by destruct (Hno j p Hj).
        - apply lookup_lt_Some in Hj. rewrite length_app in Hj.
          simpl in Hj. lia. }
      by rewrite delete_middle, app_nil_r.
    + intros t' Hne. destruct (Hoth2 t' Hne) as [_ ->].
      by destruct (Hoth1 t' Hne).
  - apply list_find_None in Hf. rewrite Hreg1 in Hf.
    apply Forall_app in Hf as [_ Hh]. apply Forall_cons_1 in Hh as [Hh _].
    destruct Hh. by apply identity_match_self.
Qed.

Lemma Subscribe_then_Unsubscribe_witness :
  let bus2 := exec_all [OSubscribe "log" Sample.broken;
                        OUnsubscribe "log" Sample.broken] Sample.bus2 in
  length (registered bus2 "log") = length (registered Sample.bus2 "log") ∧
  "log" ∈ dom (handlers bus2) ∧
  (Forall (λ p, identity_match (ValueOf Sample.broken) p ≠ true)
     (registered Sample.bus2 "log") →
   registered bus2 "log" = registered Sample.bus2 "log") ∧
  ∀ t', t' ≠ "log" → registered bus2 t' = registered Sample.bus2 t'.
Proof.
  apply (Subscribe_then_Unsubscribe Sample.bus2 "log").
  - eexists. reflexivity.
  - reflexivity.
Defined.

Lemma Subscribe_typed_witness :
  ∃ bus' e,
    Subscribe "greet" (Sample.str "hello") Sample.bus2 = (bus', Ok e) ∧
    (e ≠ None ↔ kind_of Sample.string_type ≠ Func) ∧
    (kind_of Sample.string_type ≠ Func →
       e = Some (NotFunc (kind_of Sample.string_type)) ∧
       error_kind (NotFunc (kind_of Sample.string_type)) = NotInvocable ∧
       bus' = Sample.bus2) ∧
    (kind_of Sample.string_type = Func →
       e = None ∧
       registered bus' "greet"
         = registered Sample.bus2 "greet"
           ++ [Some {| callBack := VVal Sample.string_type (DString "hello") |}] ∧
       ∀ t', t' ≠ "greet" → registered bus' t' = registered Sample.bus2 t').
Proof.
  apply (Subscribe_typed Sample.bus2 "greet" Sample.string_type (DString "hello")).
  eexists. reflexivity.
Defined.

Lemma Unsubscribe_result_witness :
  ∃ bus' e, Unsubscribe "log" Sample.broken Sample.bus2 = (bus', Ok e) ∧
    (e = Some (TopicNotExist "log") ↔
       handlers Sample.bus2 !! "log" = None ∨
       ∃ s, handlers Sample.bus2 !! "log" = Some s ∧ len s = 0%nat) ∧
    (e = None ↔
       ∃ s, handlers Sample.bus2 !! "log" = Some s ∧ (0 < len s)%nat) ∧
    error_kind (TopicNotExist "log") = UnknownTopic ∧
    (Forall (λ p, identity_match (ValueOf Sample.broken) p ≠ true)
       (registered Sample.bus2 "log") →
     bus' = Sample.bus2).
Proof.
  apply (Unsubscribe_result Sample.bus2 "log" Sample.broken).
  - eexists. reflexivity.
  - discriminate.
Defined.

(** ** What every reachable bus looks like *)

(** X5.  In a bus made by New and used through its methods, the backing
    array of the slice of a topic holds the registered handlers followed by
    nil pointers up to the capacity: the handler removeHandler removes is
    not kept in the place it clears. *)
Theorem spare_slots_hold_nil `{Runtime} `{Callables} bus topic s :
  reachable bus →
  handlers bus !! topic = Some s →
  backing (mem bus) s
  = registered bus topic ++ replicate (cap s - len s) None.
Proof.
  intros [ops <-] Hs.
  destruct (exec_all_step ops New wf_New) as (Hwf & _ & _).
  assert (spare_slots_nil (exec_all ops New)) as Hsp.
  { apply spare_exec_all; [apply wf_New|]. intros t' s'. unfold New. simpl.
    by rewrite lookup_empty. }
  pose proof (wf_slices _ Hwf _ _ Hs) as Hws.
  unfold registered. rewrite Hs, (wf_slice_elems _ _ Hws).
  rewrite <- (take_drop (len s) (backing _ s)) at 1. f_equal.
  specialize (Hsp _ _ Hs).
  assert (length (drop (len s) (backing (mem (exec_all ops New)) s))
          = (cap s - len s)%nat) as Hlen
    by (rewrite length_drop; by rewrite (wf_slice_backing _ _ Hws)).
  revert Hsp Hlen. generalize (cap s - len s)%nat.
  induction (drop _ _) as [|p l IH]; intros n Hall Hl; simpl in Hl; subst n.
  - done.
  - apply Forall_cons_1 in Hall as [-> Hall]. simpl. f_equal. by apply IH.
Qed.

Lemma spare_slots_hold_nil_witness :
  let bus := exec (OUnsubscribe "log" Sample.logf) Sample.bus2 in
  let s := Slice (Some 4%positive) 0 2 4 in
  backing (mem bus) s = registered bus "log" ++ replicate (cap s - len s) None.
Proof.
  intros bus s. apply (spare_slots_hold_nil bus "log" s).
  - exists [OSubscribe "greet" Sample.greet; OSubscribe "log" Sample.logf;
            OSubscribe "log" Sample.greet; OSubscribe "log" Sample.greet';
            OUnsubscribe "log" Sample.logf].
    reflexivity.
  - vm_compute. reflexivity.
Defined.

(** X6.  In a bus made by New and used through its methods, the slice of a
    topic starts at the beginning of an allocated array that is as long as
    its capacity, its length is within its capacity and is the number of the
    registered handlers, every registered handler is a pointer that is not
    nil to a handler made from a function, and no other topic uses the same
    array. *)
Theorem registry_shape `{Runtime} `{Callables} bus topic s :
  reachable bus →
  handlers bus !! topic = Some s →
  (∃ a arr, array s = Some a ∧ mem bus !! a = Some arr ∧
            length arr = cap s) ∧
  off s = 0%nat ∧ (len s ≤ cap s)%nat ∧
  length (registered bus topic) = len s ∧
  (∀ p, p ∈ registered bus topic →
        ∃ t d, p = Some {| callBack := VVal t d |} ∧ kind_of t = Func) ∧
  (∀ topic' s', topic' ≠ topic → handlers bus !! topic' = Some s' →
                array s' ≠ array s).
Proof.
  intros Hwf%reachable_wf Hs.
  destruct (wf_slices _ Hwf _ _ Hs) as (a & arr & E1 & E2 & E3 & E4 & E5).
  split; [by exists a, arr|]. split; [done|]. split; [done|].
  unfold registered. rewrite Hs. split; [|split].
  - apply wf_slice_length. by exists a, arr.
  - intros p Hp. pose proof (wf_funcs _ Hwf _ _ Hs) as Hf.
    rewrite Forall_forall in Hf. by apply Hf.
  - intros topic' s' Hne Hs'. by apply (wf_apart _ Hwf topic' topic).
Qed.

Lemma registry_shape_witness :
  let s := Slice (Some 4%positive) 0 3 4 in
  (∃ a arr, array s = Some a ∧ mem Sample.bus2 !! a = Some arr ∧
            length arr = cap s) ∧
  off s = 0%nat ∧ (len s ≤ cap s)%nat ∧
  length (registered Sample.bus2 "log") = len s ∧
  (∀ p, p ∈ registered Sample.bus2 "log" →
        ∃ t d, p = Some {| callBack := VVal t d |} ∧ kind_of t = Func) ∧
  (∀ topic' s', topic' ≠ "log" → handlers Sample.bus2 !! topic' = Some s' →
                array s' ≠ array s).
Proof.
  intros s. apply (registry_shape Sample.bus2 "log" s).
  - eexists. reflexivity.
  - vm_compute. reflexivity.
Defined.

(** ** findHandlerIdx and removeHandler *)

(** X7.  On a reachable bus and for a callback that is not the zero Value,
    findHandlerIdx does not panic and leaves the bus as it is; it returns
    either -1, when no handler of the topic has the type and the pointer of
    the callback, or the index of the first handler that has them. *)
Theorem findHandlerIdx_result `{Runtime} `{Callables} bus topic t d :
  reachable bus →
  ∃ idx, findHandlerIdx topic (VVal t d) bus = (bus, Ok idx) ∧
    ((idx = -1 ∧
      Forall (λ p, identity_match (VVal t d) p ≠ true) (registered bus topic)) ∨
     (∃ j p, idx = Z.of_nat j ∧ registered bus topic !! j = Some p ∧
             identity_match (VVal t d) p = true ∧
             ∀ i q, registered bus topic !! i = Some q → (i < j)%nat →
                    identity_match (VVal t d) q ≠ true)).
Proof.
  intros Hwf%reachable_wf.
  unfold findHandlerIdx, bind, ret, lift, map_get, range, registered.
  destruct (handlers bus !! topic) as [s|] eqn:Hs; simpl.
  - rewrite Hs. simpl.
    rewrite findHandlerIdx_loop_find by apply (wf_funcs _ Hwf _ _ Hs).
    eexists. split; [done|].
    destruct (list_find _ _) as [[j p]|] eqn:Hf.
    + right. apply list_find_Some in Hf as (Hj & Hp & Hbefore).
      exists j, p. split; [done|]. split; [done|]. split; [done|].
      intros i q Hq Hi. by apply (Hbefore i).
    + left. split; [done|]. by apply list_find_None in Hf.
  - exists (-1). split; [done|]. left. by split.
Qed.

Lemma findHandlerIdx_result_witness :
  ∃ idx, findHandlerIdx "log" (ValueOf Sample.greet') Sample.bus2
         = (Sample.bus2, Ok idx) ∧
    ((idx = -1 ∧
      Forall (λ p, identity_match (ValueOf Sample.greet') p ≠ true)
        (registered Sample.bus2 "log")) ∨
     (∃ j p, idx = Z.of_nat j ∧ registered Sample.bus2 "log" !! j = Some p ∧
             identity_match (ValueOf Sample.greet') p = true ∧
             ∀ i q, registered Sample.bus2 "log" !! i = Some q → (i < j)%nat →
                    identity_match (ValueOf Sample.greet') q ≠ true)).
Proof.
  apply (findHandlerIdx_result Sample.bus2 "log").
  eexists. reflexivity.
Defined.

Lemma removeHandler_beyond topic idx s bus :
  handlers bus !! topic = Some s → Z.of_nat (len s) ≤ idx →
  removeHandler topic idx bus = (bus, Ok ()).
Proof.
  intros Hs Hidx. unfold removeHandler, bind, ret, map_get. simpl.
  rewrite Hs. simpl. rewrite Hs. simpl.
  rewrite (bool_decide_eq_false_2 (idx < _)) by lia.
  by rewrite andb_false_r.
Qed.

(** X8.  On a reachable bus removeHandler does not panic, whatever the
    index: with an index from 0 to the number of the handlers of the topic
    less one it removes the handler at that index and keeps the others in
    their order; with any other index, or on a topic that is not a key, it
    leaves the bus as it is.  The handlers of the other topics stay. *)
Theorem removeHandler_result `{Runtime} `{Callables} bus topic idx :
  reachable bus →
  ∃ bus', removeHandler topic idx bus = (bus', Ok ()) ∧
    (0 ≤ idx < Z.of_nat (length (registered bus topic)) →
     registered bus' topic = delete (Z.to_nat idx) (registered bus topic)) ∧
    (¬ (0 ≤ idx < Z.of_nat (length (registered bus topic))) → bus' = bus) ∧
    ∀ t', t' ≠ topic → registered bus' t' = registered bus t'.
Proof.
  intros Hwf%reachable_wf.
  destruct (handlers bus !! topic) as [s|] eqn:Hs.
  - pose proof (wf_slice_length _ _ (wf_slices _ Hwf _ _ Hs)) as Hlen.
    assert (registered bus topic = elems (mem bus) s) as Hr
      by (unfold registered; by rewrite Hs).
    rewrite Hr, Hlen.
    destruct (decide (0 ≤ idx < Z.of_nat (len s))) as [Hin|Hout].
    + destruct (removeHandler_in_range topic (Z.to_nat idx) s bus Hwf Hs)
        as (bus' & Heq & _ & _ & Hreg & Hoth & _); [lia|].
      rewrite Z2Nat.id in Heq by lia. exists bus'. split; [done|].
      split; [by rewrite <- Hr|]. split; [done|].
      intros t' Hne. by destruct (Hoth t' Hne).
    + exists bus. split; [|by split].
      destruct (decide (idx < 0)) as [Hneg|Hpos].
      * by apply removeHandler_out_of_range.
      * apply (removeHandler_beyond _ _ s); [done|lia].
  - exists bus. split; [|split; [|split; done]].
    + unfold removeHandler, bind, ret, map_get. by rewrite Hs.
    + unfold registered. rewrite Hs. simpl. lia.
Qed.

Lemma removeHandler_result_witness :
  ∃ bus', removeHandler "log" 1 Sample.bus2 = (bus', Ok ()) ∧
    (0 ≤ 1 < Z.of_nat (length (registered Sample.bus2 "log")) →
     registered bus' "log" = delete (Z.to_nat 1) (registered Sample.bus2 "log")) ∧
    (¬ (0 ≤ 1 < Z.of_nat (length (registered Sample.bus2 "log"))) →
     bus' = Sample.bus2) ∧
    ∀ t', t' ≠ "log" → registered bus' t' = registered Sample.bus2 t'.
Proof.
  apply (removeHandler_result Sample.bus2 "log" 1).
  eexists. reflexivity.
Defined.

(** ** The dispatchers and the registry *)

(** X9.  HasCallback, Publish and PublishWithReply never change the
    registry of a reachable bus: the map is the same after the call, and so
    are the handlers of every topic. *)
Theorem dispatch_keeps_registry `{Runtime} `{Callables}
    bus topic timeout args done_first o :
  reachable bus →
  o = OHasCallback topic ∨ o = OPublish topic args ∨
  o = OPublishWithReply topic timeout args done_first →
  handlers (exec o bus) = handlers bus ∧
  ∀ t, registered (exec o bus) t = registered bus t.
Proof.
  intros Hwf%reachable_wf Ho.
  assert (exec o bus = bus ∨
          ∃ arr, exec o bus
                 = {| handlers := handlers bus;
                      mem := <[fresh (dom (mem bus)) := arr]> (mem bus) |})
    as [->|[arr ->]]; [|done|].
  { destruct Ho as [->|[->| ->]]; simpl.
    - left. unfold HasCallback, bind, ret, map_get.
      destruct (handlers bus !! topic) as [s|] eqn:Hs; simpl; [|done].
      by rewrite Hs.
    - destruct (handlers bus !! topic) as [s|] eqn:Hs;
        [|left; by rewrite Publish_none by congruence].
      destruct (decide (0 < len s)%nat) as [Hlen|Hlen];
        [|left; by rewrite Publish_none by (intros ? ?; simplify_eq; lia)].
      destruct (Publish_some topic args s bus Hwf Hs Hlen) as (-> & _).
      right. eauto.
    - destruct (handlers bus !! topic) as [s|] eqn:Hs;
        [|left; by rewrite PublishWithReply_unknown].
      destruct (decide (len s = 1%nat)) as [Hlen|Hlen];
        [|left; by rewrite (PublishWithReply_count _ _ _ _ s)].
      pose proof (wf_slice_length _ _ (wf_slices _ Hwf _ _ Hs)) as Hl.
      pose proof (wf_funcs _ Hwf _ _ Hs) as Hf.
      destruct (elems (mem bus) s) as [|p [|??]] eqn:Hel; simpl in Hl; try lia.
      apply Forall_cons_1 in Hf as [(t & d' & -> & _) _].
      rewrite (PublishWithReply_one topic timeout args done_first
                 {| callBack := VVal t d' |}) by (by exists s).
      right. eauto. }
  destruct (alloc_step bus arr Hwf) as (_ & Hsame & _). by split.
Qed.

Lemma dispatch_keeps_registry_witness :
  let o := OPublishWithReply "greet" 100 [Sample.str "world"] done_wins in
  handlers (exec o Sample.bus2) = handlers Sample.bus2 ∧
  ∀ t, registered (exec o Sample.bus2) t = registered Sample.bus2 t.
Proof.
  intros o.
  apply (dispatch_keeps_registry Sample.bus2 "greet" 100 [Sample.str "world"] done_wins o).
  - eexists. reflexivity.
  - right. right. reflexivity.
Defined.

(** X10.  On a topic with exactly one handler, when the call of the handler
    returns no earlier than the timer fires, the handler is called all the
    same and the call of PublishWithReply does not panic; what the caller
    gets is left to the scheduler.  If the [select] takes the timer, the
    caller gets no value and the error of kind Timeout after waiting for the
    timeout and no longer, and the late result list is lost: it stays in
    the channel when it is sent before the deferred close, and otherwise the
    send panics and the goroutine recovers and prints.  If the [select]
    still finds the result list, the caller gets it as if it had come in
    time, without an error. *)
Theorem PublishWithReply_late_result `{Callables}
    topic timeout args done_first h bus passedArguments after resultList :
  sole_handler bus topic h →
  setUpPublish (Some h) args = Ok passedArguments →
  Call (callBack h) passedArguments = Returns after resultList →
  (Z.to_N timeout ≤ after)%N →
  ∃ bus' run,
    PublishWithReply topic timeout args done_first bus = (bus', Ok run) ∧
    handlers bus' = handlers bus ∧
    started run = Some {| called := Some (callBack h, passedArguments);
                          outcome := Returns after resultList |} ∧
    match done_first with
    | timer_wins send_after_close =>
        reply run = None ∧
        err run = Some (HandlerTimeout topic) ∧
        waited run = Z.to_N timeout ∧
        printed run = (if send_after_close then [SendOnClosedChannel] else [])
    | done_wins =>
        reply run
        = match resultList with [v] => Some (Reflected v) | _ => None end ∧
        err run = None ∧
        waited run = after ∧
        printed run = []
    end.
Proof.
  intros Hsole Hargs Hcall Hafter.
  rewrite (PublishWithReply_one _ _ _ _ h) by done.
  rewrite Hargs, Hcall. eexists _, _. split; [done|]. split; [done|].
  unfold await. simpl.
  rewrite (bool_decide_eq_false_2 (after < _)%N) by lia.
  destruct done_first as [|c]; [|done].
  unfold received. by destruct resultList as [|v [|??]].
Qed.

Lemma PublishWithReply_late_result_witness :
  ∃ bus' run,
    PublishWithReply "greet" (-5) [Sample.str "world"] (timer_wins true)
      Sample.bus2
    = (bus', Ok run) ∧
    handlers bus' = handlers Sample.bus2 ∧
    started run
    = Some {| called := Some (ValueOf Sample.greet,
                              [ValueOf (Sample.str "world")]);
              outcome := Returns 1 [ValueOf (Sample.str "hello world")] |} ∧
    reply run = None ∧
    err run = Some (HandlerTimeout "greet") ∧
    waited run = Z.to_N (-5) ∧
    printed run = [SendOnClosedChannel].
Proof.
  apply (PublishWithReply_late_result "greet" (-5) [Sample.str "world"]
           (timer_wins true) {| callBack := ValueOf Sample.greet |} Sample.bus2).
  - exists (Slice (Some 1%positive) 0 1 1). vm_compute. done.
  - reflexivity.
  - reflexivity.
  - simpl. lia.
Defined.

(** ** setUpPublish and the tasks of Publish *)

(** X11.  When no published argument is nil, setUpPublish never looks at
    the parameters of the function: for any handler whose callable is not
    the zero Value it returns the published values as they are, however many
    they are; the number and the types of the arguments are left to Call. *)
Theorem setUpPublish_without_nil h funcType args :
  Type_ (callBack h) = Ok funcType →
  Forall (λ v, v ≠ INil) args →
  setUpPublish (Some h) args = Ok (ValueOf <$> args).
Proof.
  intros Hty Hargs. unfold setUpPublish. simpl. rewrite Hty. simpl.
  generalize 0%nat. induction Hargs as [|v args Hv _ IH]; intros i; simpl.
  - done.
  - rewrite IH. by destruct v.
Qed.

Lemma setUpPublish_without_nil_witness :
  setUpPublish (Some {| callBack := ValueOf Sample.greet |})
    [Sample.str "a"; Sample.str "b"; Sample.str "c"]
  = Ok (ValueOf <$> [Sample.str "a"; Sample.str "b"; Sample.str "c"]).
Proof.
  apply (setUpPublish_without_nil _ Sample.greet_type).
  - reflexivity.
  - repeat constructor; discriminate.
Defined.

Lemma setUpPublish_loop_panic_inv funcType i args p :
  setUpPublish_loop funcType i args = Panic p →
  kind_of funcType = Func →
  ∃ j, args !! j = Some INil ∧ (length (ins_of funcType) ≤ i + j)%nat.
Proof.
  intros Hp Hk. revert i p Hp.
  induction args as [|v args IH]; intros i p; simpl.
  - done.
  - destruct (setUpPublish_loop funcType (S i) args) as [xs|q] eqn:Hrest.
    + destruct v as [|t d]; simpl; [|done].
      destruct (decide (i < length (ins_of funcType))%nat) as [Hi|Hi].
      * by destruct (In_in_range funcType i Hk Hi) as (t & -> & _).
      * intros _. exists 0%nat. split; [done|lia].
    + intros _. destruct (IH (S i) q Hrest) as (j & Hj & Hle).
      exists (S j). split; [done|lia].
Qed.

(** X12.  Every goroutine Publish starts on a reachable bus is for a
    registered handler made from a function; when it runs, it calls that
    function, with one value for each published argument, unless some nil
    argument stands at a position that is not below the number of the
    declared parameters, in which case it calls nothing. *)
Theorem Publish_tasks_call `{Runtime} `{Callables}
    bus topic args bus' tasks task :
  reachable bus →
  Publish topic args bus = (bus', Ok tasks) →
  task ∈ tasks →
  ∃ h funcType,
    task_handler task = Some h ∧ Some h ∈ registered bus topic ∧
    Type_ (callBack h) = Ok funcType ∧ kind_of funcType = Func ∧
    (called (run_task task) = None ↔
     ∃ i, args !! i = Some INil ∧ (length (ins_of funcType) ≤ i)%nat) ∧
    (∀ f passedArguments,
       called (run_task task) = Some (f, passedArguments) →
       f = callBack h ∧ outcome (run_task task) = Call f passedArguments ∧
       length passedArguments = length args).
Proof.
  intros Hwf%reachable_wf Hpub Hin.
  destruct (handlers bus !! topic) as [s|] eqn:Hs; cycle 1.
  { rewrite Publish_none in Hpub by congruence. simplify_eq.
    by apply elem_of_nil in Hin. }
  destruct (decide (0 < len s)%nat) as [Hlen|Hlen]; cycle 1.
  { rewrite Publish_none in Hpub by (intros ? ?; simplify_eq; lia).
    simplify_eq. by apply elem_of_nil in Hin. }
  destruct (Publish_some topic args s bus Hwf Hs Hlen) as (Heq & _).
  rewrite Heq in Hpub. simplify_eq.
  apply list_elem_of_fmap in Hin as (p & -> & Hp).
  assert (is_func_handler p) as (t & d & -> & Hk).
  { pose proof (wf_funcs _ Hwf _ _ Hs) as Hf. rewrite Forall_forall in Hf.
    apply Hf. unfold registered in Hp. by rewrite Hs in Hp. }
  eexists _, t. split; [done|]. split; [done|]. split; [done|].
  split; [done|]. unfold run_task. simpl. rewrite doPublish_handler.
  unfold setUpPublish. simpl.
  destruct (setUpPublish_loop t 0 args) as [passed|q] eqn:Hloop; simpl.
  - split.
    + split; [done|]. intros (i & Hi & Hle).
      destruct (setUpPublish_loop_panic t 0 args i Hk Hi) as [k Hpanic];
        [lia|congruence].
    + intros f passedArguments [= <- <-]. split; [done|]. split; [done|].
      by destruct (setUpPublish_loop_ok _ _ _ _ Hloop).
  - split; [|done]. split; [|done]. intros _.
    destruct (setUpPublish_loop_panic_inv t 0 args q Hloop Hk) as (j & Hj & Hle).
    exists j. split; [done|lia].
Qed.

Lemma Publish_tasks_call_witness :
  let task := go_doPublish "log" [INil; INil; INil]
                (Some {| callBack := ValueOf Sample.logf |}) in
  ∃ h funcType,
    task_handler task = Some h ∧ Some h ∈ registered Sample.bus2 "log" ∧
    Type_ (callBack h) = Ok funcType ∧ kind_of funcType = Func ∧
    (called (run_task task) = None ↔
     ∃ i, [INil; INil; INil] !! i = Some INil ∧
          (length (ins_of funcType) ≤ i)%nat) ∧
    (∀ f passedArguments,
       called (run_task task) = Some (f, passedArguments) →
       f = callBack h ∧ outcome (run_task task) = Call f passedArguments ∧
       length passedArguments = length [INil; INil; INil]).
Proof.
  intros task.
  apply (Publish_tasks_call Sample.bus2 "log" [INil; INil; INil]
           (Publish "log" [INil; INil; INil] Sample.bus2).1
           (go_doPublish "log" [INil; INil; INil]
              <$> registered Sample.bus2 "log")).
  - eexists. reflexivity.
  - vm_compute. reflexivity.
  - vm_compute. apply list_elem_of_here.
Defined.

(** ** Subscribe after other calls *)

(** X13.  After Unsubscribe has removed a handler of a topic, the next
    Subscribe of a function to that topic allocates nothing: the handler is
    put into the place removeHandler has cleared, in the same backing array,
    and the slice of the topic has the header it had before the two
    calls. *)
Theorem Subscribe_reuses_the_array `{Runtime} `{Callables}
    bus topic s r t d :
  reachable bus →
  handlers bus !! topic = Some s →
  (∃ p, p ∈ registered bus topic ∧ identity_match (ValueOf r) p = true) →
  kind_of t = Func →
  let bus2 := exec_all [OUnsubscribe topic r; OSubscribe topic (IVal t d)] bus in
  dom (mem bus2) = dom (mem bus) ∧
  handlers bus2 !! topic = Some s ∧
  registered bus2 topic !! (len s - 1)%nat = Some (Some {| callBack := VVal t d |}).
Proof.
  intros Hwf%reachable_wf Hs (p & Hp & Hmatch) Hk bus2. subst bus2.
  destruct r as [|t0 d0]; [by rewrite identity_match_zero in Hmatch|].
  simpl in Hmatch.
  assert (registered bus topic = elems (mem bus) s) as Hr
    by (unfold registered; by rewrite Hs).
  pose proof (wf_slices _ Hwf _ _ Hs) as Hws.
  pose proof (wf_slice_length _ _ Hws) as Hlen.
  assert (0 < len s)%nat as Hpos.
  { rewrite <- Hlen, <- Hr. destruct (registered bus topic); [|simpl; lia].
    by apply elem_of_nil in Hp. }
  simpl. rewrite (Unsubscribe_eq topic t0 d0 s) by done.
  destruct (list_find _ _) as [[j q]|] eqn:Hfind; cycle 1.
  { apply list_find_None in Hfind. rewrite Forall_forall in Hfind.
    destruct (Hfind p); [by rewrite <- Hr|done]. }
  apply list_find_Some in Hfind as (Hj & _ & _).
  apply lookup_lt_Some in Hj. rewrite Hlen in Hj.
  destruct Hws as (a & arr & E1 & E2 & E3 & E4 & E5).
  rewrite (removeHandler_eq topic j s) by done. simpl.
  rewrite Subscribe_func_eq by done. simpl.
  rewrite lookup_insert_eq. simpl.
  rewrite decide_True by lia. simpl.
  split; [by rewrite !dom_store_elems|].
  rewrite lookup_insert_eq. split.
  - destruct s as [sa so sl sc]. simpl in *. f_equal. f_equal. lia.
  - unfold registered. simpl. rewrite lookup_insert_eq.
    unfold elems at 1. simpl. rewrite E4, drop_0.
    rewrite lookup_take_lt by lia.
    rewrite backing_store_elems_same by done. simpl.
    apply list_lookup_insert_eq.
    rewrite !backing_store_elems_same by done.
    rewrite !length_inserts.
    unfold backing. simpl. rewrite E1, E2. simpl. lia.
Qed.

Lemma Subscribe_reuses_the_array_witness :
  let s := Slice (Some 4%positive) 0 3 4 in
  let bus2 := exec_all [OUnsubscribe "log" Sample.logf;
                        OSubscribe "log" Sample.broken] Sample.bus2 in
  dom (mem bus2) = dom (mem Sample.bus2) ∧
  handlers bus2 !! "log" = Some s ∧
  registered bus2 "log" !! (len s - 1)%nat
  = Some (Some {| callBack := VVal Sample.greet_type (DFunc 8192 0) |}).
Proof.
  intros s.
  apply (Subscribe_reuses_the_array Sample.bus2 "log" s Sample.logf).
  - eexists. reflexivity.
  - vm_compute. reflexivity.
  - exists (Some {| callBack := ValueOf Sample.logf |}).
    split; [|reflexivity]. vm_compute. apply list_elem_of_here.
  - reflexivity.
Defined.

(** X14.  After Subscribe of a function to a topic of a reachable bus,
    HasCallback says true for the topic and Publish starts one goroutine for
    each handler there was, in their order, and then one for the handler of
    the function just subscribed.  Every one of these goroutines has the
    topic and the arguments of the call as its operands and runs
    [doPublish] on its handler; the last one sets up the arguments for the
    function just subscribed and, if that succeeds, calls it with them. *)
Theorem Subscribe_then_Publish `{Runtime} `{Callables} bus topic t d args :
  reachable bus →
  kind_of t = Func →
  let bus1 := exec (OSubscribe topic (IVal t d)) bus in
  let h := {| callBack := VVal t d |} in
  (HasCallback topic bus1).2 = Ok true ∧
  ∃ tasks task,
    (Publish topic args bus1).2 = Ok (tasks ++ [task]) ∧
    task_handler <$> tasks = registered bus topic ∧
    task_handler task = Some h ∧
    Forall (λ task, task_topic task = topic ∧ task_args task = args ∧
                    run_task task = doPublish (task_handler task) topic args)
      (tasks ++ [task]) ∧
    ∀ passedArguments,
      setUpPublish (Some h) args = Ok passedArguments →
      run_task task = {| called := Some (VVal t d, passedArguments);
                         outcome := Call (VVal t d) passedArguments |}.
Proof.
  intros Hwf%reachable_wf Hk bus1 h. subst bus1. simpl.
  destruct (Subscribe_func topic t d bus Hk Hwf)
    as (bus1 & -> & Hwf1 & Hdom1 & Hreg1 & _ & _). simpl.
  assert (topic ∈ dom (handlers bus1)) as Hin
    by (rewrite Hdom1; by apply elem_of_union_l, elem_of_singleton).
  apply elem_of_dom in Hin as [s1 Hs1].
  pose proof (wf_slice_length _ _ (wf_slices _ Hwf1 _ _ Hs1)) as Hlen1.
  assert (registered bus1 topic = elems (mem bus1) s1) as Hr1
    by (unfold registered; by rewrite Hs1).
  assert (0 < len s1)%nat as Hpos.
  { rewrite <- Hlen1, <- Hr1, Hreg1, length_app. simpl. lia. }
  split.
  - unfold HasCallback, bind, ret, map_get. rewrite Hs1. simpl.
    rewrite Hs1. simpl. by rewrite bool_decide_eq_true_2.
  - destruct (Publish_some topic args s1 bus1 Hwf1 Hs1 Hpos) as (-> & _).
    simpl. rewrite Hreg1, fmap_app. simpl.
    eexists _, _. split; [done|]. split.
    { rewrite <- list_fmap_compose. apply list_fmap_id. }
    split; [done|]. split.
    { apply Forall_app. split; [by apply Forall_fmap, Forall_true|].
      by apply Forall_singleton. }
    intros passedArguments Hset. unfold run_task. simpl.
    rewrite doPublish_handler. fold h. by rewrite Hset.
Qed.

Lemma Subscribe_then_Publish_witness :
  let bus1 := exec (OSubscribe "log" Sample.sleeper) Sample.bus2 in
  let h := {| callBack := VVal Sample.greet_type (DFunc 12288 0) |} in
  (HasCallback "log" bus1).2 = Ok true ∧
  ∃ tasks task,
    (Publish "log" [Sample.str "x"] bus1).2 = Ok (tasks ++ [task]) ∧
    task_handler <$> tasks = registered Sample.bus2 "log" ∧
    task_handler task = Some h ∧
    Forall (λ task, task_topic task = "log" ∧ task_args task = [Sample.str "x"] ∧
                    run_task task
                    = doPublish (task_handler task) "log" [Sample.str "x"])
      (tasks ++ [task]) ∧
    ∀ passedArguments,
      setUpPublish (Some h) [Sample.str "x"] = Ok passedArguments →
      run_task task
      = {| called := Some (VVal Sample.greet_type (DFunc 12288 0), passedArguments);
           outcome := Call (VVal Sample.greet_type (DFunc 12288 0))
                        passedArguments |}.
Proof.
  apply (Subscribe_then_Publish Sample.bus2 "log" Sample.greet_type
           (DFunc 12288 0) [Sample.str "x"]).
  - eexists. reflexivity.
  - reflexivity.
Defined.

(** * The file hook of the logger *)

Ltac int_bounds :=
  change (2 ^ 31)%N with 2147483648%N in *;
  change (2 ^ 32)%N with 4294967296%N in *;
  change (2 ^ 32) with 4294967296 in *;
  change (2 ^ Z.of_N 32) with 4294967296 in *;
  change (2 ^ Z.of_N 64) with 18446744073709551616 in *;
  change (4294967296 / 2) with 2147483648 in *;
  change (18446744073709551616 / 2) with 9223372036854775808 in *.

Lemma int_fits intSize (level : logger.Level) :
  intSize = 32%N ∨ intSize = 64%N →
  (level < 2 ^ 31)%N ∨ (intSize = 64%N ∧ (level < 2 ^ 32)%N) →
  logger.int intSize level = Z.of_N level.
Proof.
  intros Hsize Hfits. unfold logger.int.
  destruct Hsize as [-> | ->]; int_bounds.
  - destruct Hfits as [Hfits|[? _]]; [|done].
    rewrite (Z.mod_small (Z.of_N level)) by lia.
    rewrite (Z.mod_small (Z.of_N level)) by lia.
    rewrite bool_decide_eq_true_2; lia.
  - assert (level < 4294967296)%N by (destruct Hfits as [?|[_ ?]]; lia).
    rewrite (Z.mod_small (Z.of_N level)) by lia.
    rewrite (Z.mod_small (Z.of_N level)) by lia.
    rewrite bool_decide_eq_true_2; lia.
Qed.

Lemma int_wraps (level : logger.Level) :
  (2 ^ 31 ≤ level < 2 ^ 32)%N →
  logger.int 32 level = Z.of_N level - 2 ^ 32.
Proof.
  intros [Hlo Hhi]. unfold logger.int. int_bounds.
  rewrite (Z.mod_small (Z.of_N level)) by lia.
  rewrite (Z.mod_small (Z.of_N level)) by lia.
  rewrite bool_decide_eq_false_2; lia.
Qed.

Lemma writerMap_loop {W : Type} (intSize : N) (writer : W)
    (logLevel level : logger.Level)
    (ls : list logger.Level) (m : gmap logger.Level W) :
  foldl (λ m level,
           if bool_decide (logger.int intSize level ≤ logger.int intSize logLevel)
           then <[level := writer]> m else m) m ls !! level
  = if decide (level ∈ ls ∧
               logger.int intSize level ≤ logger.int intSize logLevel)
    then Some writer else m !! level.
Proof.
  revert m. induction ls as [|l ls IH]; intros m.
  - cbn [foldl]. case_decide as Hd; [|done]. destruct Hd as [Hd _].
    by apply elem_of_nil in Hd.
  - cbn [foldl]. rewrite IH.
    destruct (decide (level ∈ ls ∧ _)) as [[Hin Hle]|Hno].
    + case_decide as Hd; [done|]. destruct Hd.
      split; [by apply list_elem_of_further|done].
    + case_bool_decide as Hl.
      * rewrite lookup_insert. destruct (decide (l = level)) as [->|Hne].
        -- case_decide as Hd; [done|]. destruct Hd.
           split; [apply list_elem_of_here|done].
        -- case_decide as Hd; [|done]. destruct Hd as [Hin Hle].
           apply elem_of_cons in Hin as [->|Hin]; [done|]. by destruct Hno.
      * case_decide as Hd; [|done]. destruct Hd as [Hin Hle].
        apply elem_of_cons in Hin as [->|Hin]; [done|]. by destruct Hno.
Qed.

Lemma elem_of_levels (l : logger.Level) :
  l ∈ logger.levels ↔ (l ≤ logger.DebugLevel)%N.
Proof.
  unfold logger.levels, logger.DebugLevel, logger.InfoLevel,
    logger.WarnLevel, logger.ErrorLevel, logger.FatalLevel, logger.PanicLevel.
  rewrite !elem_of_cons, elem_of_nil. lia.
Qed.

(** X15.  Where [int] has 32 or 64 bits, the hook newLogFileHook makes
    writes a level to the file exactly when the level is one of the six
    from PanicLevel to DebugLevel and, converted to [int], is not above the
    level asked for converted to [int]; every such level gets the same
    writer, and TraceLevel never gets one, also when the level asked for is
    TraceLevel or beyond.  When the level asked for is below 2^31, or [int]
    has 64 bits, the conversions change nothing: the levels written are
    those not above the level asked for, and PanicLevel is always one of
    them.  Where [int] has 32 bits a level asked for from 2^31 on becomes
    negative, and no level at all is written. *)
Theorem writerMap_levels {W : Type} (intSize : N) (writer : W)
    (logLevel level : logger.Level) :
  intSize = 32%N ∨ intSize = 64%N →
  (logLevel < 2 ^ 32)%N →
  logger.writerMap intSize writer logLevel !! level
  = (if decide ((level ≤ logger.DebugLevel)%N ∧
                logger.int intSize level ≤ logger.int intSize logLevel)
     then Some writer else None) ∧
  logger.writerMap intSize writer logLevel !! logger.TraceLevel = None ∧
  ((logLevel < 2 ^ 31)%N ∨ intSize = 64%N →
   logger.writerMap intSize writer logLevel !! level
   = (if decide (level ≤ logger.DebugLevel ∧ level ≤ logLevel)%N
      then Some writer else None) ∧
   logger.writerMap intSize writer logLevel !! logger.PanicLevel = Some writer) ∧
  (intSize = 32%N → (2 ^ 31 ≤ logLevel)%N →
   logger.writerMap intSize writer logLevel = ∅).
Proof.
  intros Hsize Hlog.
  assert (Hlookup : ∀ l,
    logger.writerMap intSize writer logLevel !! l
    = if decide ((l ≤ logger.DebugLevel)%N ∧
                 logger.int intSize l ≤ logger.int intSize logLevel)
      then Some writer else None).
  { intros l. unfold logger.writerMap. rewrite writerMap_loop, lookup_empty.
    repeat case_decide; try done; exfalso; rewrite elem_of_levels in *; tauto. }
  assert (Hsmall : ∀ l : logger.Level, (l ≤ logger.DebugLevel)%N →
            logger.int intSize l = Z.of_N l).
  { intros l Hl. apply int_fits; [done|]. left.
    unfold logger.DebugLevel in Hl. int_bounds. lia. }
  split; [apply Hlookup|]. split; [|split].
  - rewrite Hlookup. case_decide as Hd; [|done]. destruct Hd as [Hd _].
    unfold logger.TraceLevel, logger.DebugLevel in Hd. lia.
  - intros Hfits.
    assert (logger.int intSize logLevel = Z.of_N logLevel) as Hint.
    { apply int_fits; [done|]. destruct Hfits; [by left|by right]. }
    rewrite !Hlookup, Hint. split.
    + repeat case_decide; try done; exfalso.
      * destruct H as [Hl Hle]. rewrite (Hsmall _ Hl) in Hle. lia.
      * destruct H0 as [Hl Hle]. apply H. rewrite (Hsmall _ Hl). lia.
    + case_decide as Hd; [done|]. destruct Hd.
      unfold logger.PanicLevel, logger.DebugLevel. split; [lia|].
      rewrite Hsmall by (unfold logger.DebugLevel; lia). lia.
  - intros -> Hbig. apply map_eq. intros l. rewrite Hlookup, lookup_empty.
    case_decide as Hd; [|done]. destruct Hd as [Hl Hle].
    rewrite (Hsmall _ Hl), int_wraps in Hle by done.
    int_bounds. lia.
Qed.

Lemma writerMap_levels_witness :
  logger.writerMap 64 "file" logger.InfoLevel !! logger.ErrorLevel = Some "file" ∧
  logger.writerMap 64 "file" logger.InfoLevel !! logger.DebugLevel = None ∧
  logger.writerMap 32 "file" (2 ^ 31) = ∅.
Proof.
  split; [|split].
  - destruct (writerMap_levels 64 "file" logger.InfoLevel logger.ErrorLevel)
      as (-> & _); [by right|done|]. done.
  - destruct (writerMap_levels 64 "file" logger.InfoLevel logger.DebugLevel)
      as (-> & _); [by right|done|]. done.
  - destruct (writerMap_levels 32 "file" (2 ^ 31) logger.PanicLevel)
      as (_ & _ & _ & Hempty); [by left|done|]. by apply Hempty.
Defined.

(** * The fixed fields of the logger *)

(** X16.  SetFixedFields keeps the map it is given, not a copy: a field
    added afterwards with AddFixedField is written into that map, which the
    caller still holds, and stays in it when other fields are set later;
    the map that was set before is not written.  After SetFixedFields with
    the nil map, AddFixedField panics and changes nothing. *)
Theorem AddFixedField_writes_the_callers_map
    (st : logger.Fields) (l l' : loc) (m : gmap string iface) key value :
  logger.maps st !! l = Some m →
  logger.fixFields st ≠ Some l →
  let st1 := (logger.AddFixedField key value
                (logger.SetFixedFields (Some l) st)).1 in
  let st2 := logger.SetFixedFields (Some l') st1 in
  logger.maps st2 !! l = Some (<[key := value]> m) ∧
  (∀ l0, logger.fixFields st = Some l0 →
         logger.maps st2 !! l0 = logger.maps st !! l0) ∧
  logger.AddFixedField key value (logger.SetFixedFields None st)
  = (logger.SetFixedFields None st, logger.PanicNilMap).
Proof.
  intros Hm Hne st1 st2. subst st1 st2. simpl. split; [|split; [|done]].
  - by rewrite lookup_alter_eq, Hm.
  - intros l0 Hl0. apply lookup_alter_ne. congruence.
Qed.

Lemma AddFixedField_writes_the_callers_map_witness :
  let st := logger.init {[ 1%positive := {[ "app" := Sample.str "bus" ]} ]} in
  let st1 := (logger.AddFixedField "host" (Sample.str "a")
                (logger.SetFixedFields (Some 1%positive) st)).1 in
  let st2 := logger.SetFixedFields (Some 7%positive) st1 in
  logger.maps st2 !! 1%positive
  = Some (<["host" := Sample.str "a"]> {[ "app" := Sample.str "bus" ]}) ∧
  (∀ l0, logger.fixFields st = Some l0 →
         logger.maps st2 !! l0 = logger.maps st !! l0) ∧
  logger.AddFixedField "host" (Sample.str "a") (logger.SetFixedFields None st)
  = (logger.SetFixedFields None st, logger.PanicNilMap).
Proof.
  intros st.
  apply (AddFixedField_writes_the_callers_map st 1%positive 7%positive
           {[ "app" := Sample.str "bus" ]} "host" (Sample.str "a")).
  - vm_compute. reflexivity.
  - vm_compute. discriminate.
Defined.
